(** * reviewstats: the reviewer aggregator and the report builder

    A shallow embedding of [reviewers.py]: [process_patchset] (the two
    passes over a patchset's approvals that tally votes and detect
    disagreements) and the part of [main] that filters, ranks and
    summarises the accumulated reviewer statistics.

    Python dictionaries used as maps are [gmap]s with string keys; the
    in-place mutation of the shared [reviewers] dictionary is a state
    monad over that map whose state survives a raised exception, as the
    mutations done before a Python exception do. *)

From Stdlib Require Import ZArith QArith String Ascii List.
From stdpp Require Import gmap strings list fin_maps sorting.

Local Open Scope string_scope.
Local Open Scope Z_scope.
Local Open Scope list_scope.

(** ** Data model *)

(** One approval (vote record) of a patchset, as decoded from the Gerrit
    JSON: [review['type']], [review['by'].get('username')],
    [review['value']] (a string such as ['-2']) and
    [review['grantedOn']] (seconds since the epoch). *)
Record approval := Approval {
  type : string;
  by_username : option string;
  value : string;
  grantedOn : Z
}.

(** [patchset.get('approvals', [])]: the key may be absent. *)
Record patchset := Patchset {
  approvals : option (list approval)
}.

(** [change.get('patchSets', [])]. *)
Record change := Change {
  patchSets : option (list patchset)
}.

(** A project descriptor; only ['name'] and ['core-team'] are read. *)
Record project := Project {
  name : string;
  core_team : list string
}.

(** The value stored under a reviewer's name. The entry is created with
    only its ['votes'] key; ['disagreements'] and ['total'] are added by
    [setdefault] and [get(..., 0)], hence optional. *)
Record reviewer_stat := ReviewerStat {
  votes : gmap string Z;
  disagreements : option Z;
  total : option Z
}.

Abbreviation reviewers_map := (gmap string reviewer_stat).

(** ** Exceptions and the state monad *)

Inductive exn := KeyError | ValueError | ZeroDivisionError.

Inductive result (A : Type) :=
| Ok (a : A)
| Raise (e : exn).
Arguments Ok {A} a.
Arguments Raise {A} e.

Definition M (A : Type) : Type := reviewers_map -> reviewers_map * result A.

Definition ret {A} (a : A) : M A := fun s => (s, Ok a).

Definition raise {A} (e : exn) : M A := fun s => (s, Raise e).

Definition bind {A B} (m : M A) (k : A -> M B) : M B :=
  fun s =>
    match m s with
    | (s', Ok a) => k a s'
    | (s', Raise e) => (s', Raise e)
    end.

Notation "x <- m ;; k" := (bind m (fun x => k))
  (at level 60, m at next level, right associativity).
Notation "m ;;; k" := (bind m (fun _ => k))
  (at level 60, right associativity).

(** [for x in l: body x]; the loop stops at the first exception. *)
Fixpoint for_each {A} (body : A -> M unit) (l : list A) : M unit :=
  match l with
  | [] => ret tt
  | x :: l' => body x ;;; for_each body l'
  end.

(** [if c: body]. *)
Definition when (c : bool) (body : M unit) : M unit :=
  if c then body else ret tt.

(** [reviewers.setdefault(k, d)]. *)
Definition setdefault (k : string) (d : reviewer_stat) : M unit :=
  fun s => match s !! k with
           | Some _ => (s, Ok tt)
           | None => (<[k := d]> s, Ok tt)
           end.

(** [reviewers[k]] read; [KeyError] when the key is absent. *)
Definition getitem (k : string) : M reviewer_stat :=
  fun s => match s !! k with
           | Some st => (s, Ok st)
           | None => (s, Raise KeyError)
           end.

(** A write through the reference [reviewers[k]]: the entry is replaced
    by its updated value. *)
Definition setitem (k : string) (st : reviewer_stat) : M unit :=
  fun s => (<[k := st]> s, Ok tt).

(** [d[k]] on an inner dictionary or an optional key. *)
Definition lookup_or_raise {A} (o : option A) : M A :=
  match o with
  | Some a => ret a
  | None => raise KeyError
  end.

(** ** The builtin [int] on decimal strings *)

Definition is_space (c : ascii) : bool :=
  let n := N_of_ascii c in
  ((n =? 32) || ((9 <=? n) && (n <=? 13)))%N.

Definition digit_of (c : ascii) : option Z :=
  let n := N_of_ascii c in
  if ((48 <=? n) && (n <=? 57))%N then Some (Z.of_N n - 48) else None.

Fixpoint lstrip (s : string) : string :=
  match s with
  | String c s' => if is_space c then lstrip s' else s
  | EmptyString => EmptyString
  end.

Fixpoint all_space (s : string) : bool :=
  match s with
  | String c s' => is_space c && all_space s'
  | EmptyString => true
  end.

(** Reads the digits of [s] after [acc]; [seen] tells whether a digit was
    read already. Trailing white space is accepted, anything else is
    not. *)
Fixpoint read_digits (seen : bool) (acc : Z) (s : string) : option Z :=
  match s with
  | EmptyString => if seen then Some acc else None
  | String c s' =>
      match digit_of c with
      | Some d => read_digits true (10 * acc + d) s'
      | None => if seen && all_space s then Some acc else None
      end
  end.

(** [int(s)] in base 10: optional surrounding white space, an optional
    sign, at least one digit; [None] stands for [ValueError]. *)
Definition py_int (s : string) : option Z :=
  match lstrip s with
  | String "-" s' => Z.opp <$> read_digits false 0 s'
  | String "+" s' => read_digits false 0 s'
  | s' => read_digits false 0 s'
  end.

(** ** [process_patchset] *)

(** [review['by'].get('username', 'unknown')] *)
Definition reviewer_of (review : approval) : string :=
  default "unknown" (by_username review).

(** The body of the first loop, on the pair
    [(latest_core_pos_vote, latest_core_neg_vote)]. *)
Definition core_vote_step (proj : project) (acc : Z * Z) (review : approval)
  : result (Z * Z) :=
  if bool_decide (type review <> "CRVW") then Ok acc
  else if bool_decide (reviewer_of review ∉ core_team proj) then Ok acc
  else match py_int (value review) with
       | None => Raise ValueError
       | Some v =>
           if 0 <? v
           then Ok (Z.max (fst acc) (grantedOn review), snd acc)
           else Ok (fst acc, Z.max (snd acc) (grantedOn review))
       end.

(** The first loop, from the accumulator [acc]. *)
Fixpoint core_votes_from (proj : project) (acc : Z * Z) (l : list approval)
  : result (Z * Z) :=
  match l with
  | [] => Ok acc
  | review :: l' =>
      match core_vote_step proj acc review with
      | Ok acc' => core_votes_from proj acc' l'
      | Raise e => Raise e
      end
  end.

(** The first loop: [(latest_core_pos_vote, latest_core_neg_vote)], both
    starting at 0. *)
Definition core_votes (proj : project) (l : list approval) : result (Z * Z) :=
  core_votes_from proj (0, 0) l.

(** [{'votes': {'-2': 0, '-1': 0, '1': 0, '2': 0}}] *)
Definition fresh_votes : gmap string Z :=
  <["-2" := 0]> (<["-1" := 0]> (<["1" := 0]> (<["2" := 0]> ∅))).

Definition fresh_stat : reviewer_stat :=
  ReviewerStat fresh_votes None None.

(** [reviewers[reviewer]['disagreements'] += 1], written in the source as
    a read into [cur] and a write of [cur + 1]. *)
Definition bump_disagreements (reviewer : string) : M unit :=
  st <- getitem reviewer ;;
  cur <- lookup_or_raise (disagreements st) ;;
  setitem reviewer (ReviewerStat (votes st) (Some (cur + 1)) (total st)).

(** The body of the second loop. *)
Definition tally_review (lcp lcn ts : Z) (review : approval) : M unit :=
  if grantedOn review <? ts then ret tt
  else if bool_decide (type review <> "CRVW") then ret tt
  else
    let reviewer := reviewer_of review in
    setdefault reviewer fresh_stat ;;;
    st <- getitem reviewer ;;
    setitem reviewer
      (ReviewerStat (votes st) (Some (default 0 (disagreements st))) (total st)) ;;;
    st <- getitem reviewer ;;
    setitem reviewer
      (ReviewerStat (votes st) (disagreements st) (Some (default 0 (total st) + 1))) ;;;
    st <- getitem reviewer ;;
    cur <- lookup_or_raise (votes st !! value review) ;;
    setitem reviewer
      (ReviewerStat (<[value review := cur + 1]> (votes st))
                    (disagreements st) (total st)) ;;;
    when (bool_decide (value review ∈ ["1"; "2"])
          && (grantedOn review <? lcn))
         (bump_disagreements reviewer) ;;;
    when (bool_decide (value review ∈ ["-1"; "-2"])
          && (grantedOn review <? lcp))
         (bump_disagreements reviewer).

(** The second loop. *)
Definition tally (lcp lcn ts : Z) (l : list approval) : M unit :=
  for_each (tally_review lcp lcn ts) l.

Definition approvals_of (ps : patchset) : list approval :=
  default [] (approvals ps).

Definition process_patchset (proj : project) (ps : patchset) (ts : Z) : M unit :=
  fun s =>
    match core_votes proj (approvals_of ps) with
    | Raise e => (s, Raise e)
    | Ok (latest_core_pos_vote, latest_core_neg_vote) =>
        tally latest_core_pos_vote latest_core_neg_vote ts (approvals_of ps) s
    end.

(** The two conditions of the second loop under which an approval is
    tallied, and the two disagreement tests. *)
Definition counted (ts : Z) (review : approval) : bool :=
  negb (grantedOn review <? ts) && bool_decide (type review = "CRVW").

Definition rule_A (lcn : Z) (review : approval) : bool :=
  bool_decide (value review ∈ ["1"; "2"]) && (grantedOn review <? lcn).

Definition rule_B (lcp : Z) (review : approval) : bool :=
  bool_decide (value review ∈ ["-1"; "-2"]) && (grantedOn review <? lcp).

(** The entry of a counted approval's reviewer once [total] is
    incremented, and once the vote and the disagreements are. *)
Definition stat_seen (st : reviewer_stat) : reviewer_stat :=
  ReviewerStat (votes st) (Some (default 0 (disagreements st)))
               (Some (default 0 (total st) + 1)).

Definition stat_tallied (lcp lcn : Z) (review : approval) (cur : Z)
    (st : reviewer_stat) : reviewer_stat :=
  ReviewerStat (<[value review := cur + 1]> (votes st))
    (Some (default 0 (disagreements st)
           + (if rule_A lcn review then 1 else 0)
           + (if rule_B lcp review then 1 else 0)))
    (Some (default 0 (total st) + 1)).

(** ** What a reviewer's entry shows

    Readings of an entry with the defaults the code itself uses
    ([get('total', 0)], [setdefault('disagreements', 0)]). *)

Definition vote_labels : list string := ["-2"; "-1"; "1"; "2"].

Definition stat_total (st : reviewer_stat) : Z := default 0 (total st).

Definition stat_disagreements (st : reviewer_stat) : Z :=
  default 0 (disagreements st).

Definition stat_vote (st : reviewer_stat) (label : string) : Z :=
  default 0 (votes st !! label).

Definition total_of (s : reviewers_map) (k : string) : Z :=
  from_option stat_total 0 (s !! k).

Definition disagreements_of (s : reviewers_map) (k : string) : Z :=
  from_option stat_disagreements 0 (s !! k).

Definition vote_of (s : reviewers_map) (k label : string) : Z :=
  from_option (fun st => stat_vote st label) 0 (s !! k).

(** Every entry has the four vote labels of a freshly created one. *)
Definition has_labels (st : reviewer_stat) : Prop :=
  forall label, label ∈ vote_labels -> is_Some (votes st !! label).

Definition wf_reviewers (s : reviewers_map) : Prop :=
  forall k st, s !! k = Some st -> has_labels st.

(** No entry has a vote label other than the four. *)
Definition only_labels (st : reviewer_stat) : Prop :=
  forall label, is_Some (votes st !! label) -> label ∈ vote_labels.

Definition strict_reviewers (s : reviewers_map) : Prop :=
  forall k st, s !! k = Some st -> only_labels st.

(** An entry only grows: what [stat_le st st'] says of the entry [st]
    of a reviewer before a call and the entry [st'] after it. *)
Definition stat_le (st st' : reviewer_stat) : Prop :=
  stat_total st <= stat_total st' /\
  stat_disagreements st <= stat_disagreements st' /\
  (forall label, stat_vote st label <= stat_vote st' label).

Definition grows (s s' : reviewers_map) : Prop :=
  forall k st, s !! k = Some st ->
    exists st', s' !! k = Some st' /\ stat_le st st'.

(** An entry as [process_patchset] leaves it after a counted vote: all
    keys present, counts non-negative, at least one vote counted. *)
Definition votes_sum (st : reviewer_stat) : Z :=
  stat_vote st "2" + stat_vote st "1" + stat_vote st "-2" + stat_vote st "-1".

Definition voted (st : reviewer_stat) : Prop :=
  has_labels st /\ only_labels st /\
  is_Some (total st) /\ is_Some (disagreements st) /\
  (forall label, 0 <= stat_vote st label) /\
  1 <= votes_sum st.


(** ** The latest core votes, as the specification words them

    The maximum [grantedOn] over the code-review approvals of core-team
    members whose value is positive (respectively not positive), 0 when
    there is none. *)

Definition is_core_vote (proj : project) (positive : bool) (review : approval)
  : bool :=
  bool_decide (type review = "CRVW")
  && bool_decide (reviewer_of review ∈ core_team proj)
  && match py_int (value review) with
     | Some v => if positive then 0 <? v else v <=? 0
     | None => false
     end.

Definition latest_core_vote_spec (proj : project) (positive : bool)
    (l : list approval) : Z :=
  foldr Z.max 0 (grantedOn <$> List.filter (is_core_vote proj positive) l).

(** The approvals on which the first loop does not raise: all but the
    code reviews of core-team members whose value [int] rejects. *)
Definition core_vote_ok (proj : project) (review : approval) : bool :=
  negb (bool_decide (type review = "CRVW")
        && bool_decide (reviewer_of review ∈ core_team proj))
  || bool_decide (is_Some (py_int (value review))).

(** ** The report builder (the second half of [main]) *)

(** [str.lower] on ASCII letters. *)
Definition lower_char (c : ascii) : ascii :=
  let n := N_of_ascii c in
  if ((65 <=? n) && (n <=? 90))%N then ascii_of_N (n + 32) else c.

Fixpoint lower (s : string) : string :=
  match s with
  | EmptyString => EmptyString
  | String c s' => String (lower_char c) (lower s')
  end.

Definition excluded_names : list string := ["jenkins"; "smokestack"].

(** [[(v, k) for k, v in reviewers.iteritems()
      if k.lower() not in ('jenkins', 'smokestack')]] over the items in
    the dictionary's iteration order. *)
Definition report_candidates (items : list (string * reviewer_stat))
  : list (reviewer_stat * string) :=
  (fun kv => (snd kv, fst kv))
    <$> List.filter (fun kv => bool_decide (lower (fst kv) ∉ excluded_names)) items.

(** Exceptions without state, for the report builder. *)
Definition rbind {A B} (r : result A) (k : A -> result B) : result B :=
  match r with
  | Ok a => k a
  | Raise e => Raise e
  end.

Notation "x <~ r ;; k" := (rbind r (fun x => k))
  (at level 60, r at next level, right associativity).

Definition rlookup {A} (o : option A) : result A :=
  match o with
  | Some a => Ok a
  | None => Raise KeyError
  end.

(** [list.sort(reverse=True, key=...)]: the keys are computed first, one
    per element; the sort is stable, also when reversed. *)
Fixpoint sort_keys (l : list (reviewer_stat * string))
  : result (list (Z * (reviewer_stat * string))) :=
  match l with
  | [] => Ok []
  | r :: l' =>
      t <~ rlookup (total (fst r)) ;;
      keyed <~ sort_keys l' ;;
      Ok ((t, r) :: keyed)
  end.

Fixpoint insert_desc {A} (x : Z * A) (l : list (Z * A)) : list (Z * A) :=
  match l with
  | [] => [x]
  | y :: l' => if fst x <? fst y then y :: insert_desc x l' else x :: l
  end.

Definition sort_desc {A} (l : list (Z * A)) : list (Z * A) :=
  foldr insert_desc [] l.

(** The order that a descending sort on the keys yields. *)
Definition key_ge {A} (a b : Z * A) : Prop := fst b <= fst a.

(** [reviewers.sort(reverse=True, key=lambda r: r[0]['total'])] *)
Definition sort_by_total (l : list (reviewer_stat * string))
  : result (list (reviewer_stat * string)) :=
  keyed <~ sort_keys l ;;
  Ok (snd <$> sort_desc keyed).

(** One element of [reviewer_data]: the name, the tuple [r] (its last
    component before formatting) and the tuple [d] (likewise). Floats
    are exact rationals here: the tests for zero are the ones of the
    code, the percentages are not rounded. *)
Record row := Row {
  row_name : string;
  row_total : Z;
  row_minus2 : Z;
  row_minus1 : Z;
  row_plus1 : Z;
  row_plus2 : Z;
  row_ratio : Q;
  row_disagreements : Z;
  row_dratio : Q
}.

(** [x / y] on floats: [ZeroDivisionError] on a zero divisor. *)
Definition float_div (x y : Q) : result Q :=
  if Qeq_bool y 0 then Raise ZeroDivisionError else Ok (x / y)%Q.

(** [ratio = (plus / (plus + minus)) * 100] *)
Definition plus_minus_ratio (plus minus : Q) : result Q :=
  q <~ float_div plus (plus + minus)%Q ;;
  Ok (q * 100)%Q.

Definition in_core_team (projects : list project) (v : string) : bool :=
  existsb (fun p => bool_decide (v ∈ core_team p)) projects.

(** [name = '%s%s' % (v, ' **' if in_core_team else '')] *)
Definition display_name (projects : list project) (v : string) : string :=
  (v ++ (if in_core_team projects v then " **" else ""))%string.

(** The body of the loop [for k, v in reviewers] up to the [append]. *)
Definition make_row (projects : list project) (k : reviewer_stat) (v : string)
  : result row :=
  let name := display_name projects v in
  v2 <~ rlookup (votes k !! "2") ;;
  v1 <~ rlookup (votes k !! "1") ;;
  let plus := inject_Z (v2 + v1) in
  m2 <~ rlookup (votes k !! "-2") ;;
  m1 <~ rlookup (votes k !! "-1") ;;
  let minus := inject_Z (m2 + m1) in
  ratio <~ plus_minus_ratio plus minus ;;
  t <~ rlookup (total k) ;;
  dratio <~ (if negb (Qeq_bool plus 0)
             then d <~ rlookup (disagreements k) ;;
                  q <~ float_div (inject_Z d) plus ;;
                  Ok (q * 100)%Q
             else Ok 0%Q) ;;
  d <~ rlookup (disagreements k) ;;
  Ok (Row name t m2 m1 v1 v2 ratio d dratio).

(** The loop [for k, v in reviewers]: [reviewer_data] and [total]. *)
Fixpoint reviewer_rows (projects : list project)
    (l : list (reviewer_stat * string)) : result (list row * Z) :=
  match l with
  | [] => Ok ([], 0)
  | kv :: l' =>
      r <~ make_row projects (fst kv) (snd kv) ;;
      rest <~ reviewer_rows projects l' ;;
      Ok (r :: fst rest, row_total r + snd rest)
  end.

(** What is printed: the table rows, ['Total reviews'] and
    ['Total reviewers'] ([len(reviewers)]). *)
Record report := Report {
  rows : list row;
  total_reviews : Z;
  total_reviewers : nat
}.

Definition build_report (projects : list project)
    (items : list (string * reviewer_stat)) : result report :=
  ranked <~ sort_by_total (report_candidates items) ;;
  data <~ reviewer_rows projects ranked ;;
  Ok (Report (fst data) (snd data) (length ranked)).

(** The three nested loops of [main] over the changes fetched for each
    project. *)
Definition aggregate (work : list (project * list change)) (ts : Z) : M unit :=
  for_each (fun pc =>
    for_each (fun ch =>
      for_each (fun ps => process_patchset (fst pc) ps ts)
               (default [] (patchSets ch)))
      (snd pc))
    work.

(** [main] from [reviewers = {}] on, the changes of each project given. *)
Definition main_report (work : list (project * list change)) (ts : Z)
  : result report :=
  match aggregate work ts ∅ with
  | (s, Ok _) => build_report (fst <$> work) (map_to_list s)
  | (_, Raise e) => Raise e
  end.

(** ** Sample data *)

Definition nova : project := Project "nova" ["alice"].

Definition crvw (who v : string) (t : Z) : approval :=
  Approval "CRVW" (Some who) v t.

(** Scenario 1: a core -2 at 100, a +2 by bob at 50. *)
Definition scenario1 : patchset :=
  Patchset (Some [crvw "alice" "-2" 100; crvw "bob" "2" 50]).

(** Scenario 2: the same with bob's vote at 200. *)
Definition scenario2 : patchset :=
  Patchset (Some [crvw "alice" "-2" 100; crvw "bob" "2" 200]).

(** Three reviewers with totals 1, 3 and 2, and the report on them. *)
Definition three_reviewers : list (string * reviewer_stat) :=
  [("bob", ReviewerStat (<["1" := 1]> fresh_votes) (Some 0) (Some 1));
   ("alice", ReviewerStat (<["-2" := 3]> fresh_votes) (Some 0) (Some 3));
   ("carol", ReviewerStat (<["2" := 2]> fresh_votes) (Some 1) (Some 2))].

Definition three_report : report :=
  Eval vm_compute in
    match build_report [nova] three_reviewers with
    | Ok rep => rep
    | Raise _ => Report [] 0 0
    end.

(** One project with one change of two patchsets. *)
Definition nova_work : list (project * list change) :=
  [(nova, [Change (Some [scenario1; scenario2])])].

(** Two code reviews whose [by] record has no username. *)
Definition anonymous_votes : patchset :=
  Patchset (Some [Approval "CRVW" None "1" 10; Approval "CRVW" None "-1" 20]).

(** The automated accounts in several letter cases, and one reviewer. *)
Definition with_bots : list (string * reviewer_stat) :=
  [("Jenkins", ReviewerStat fresh_votes (Some 0) (Some 900));
   ("bob", ReviewerStat (<["1" := 1]> fresh_votes) (Some 0) (Some 1));
   ("SMOKESTACK", ReviewerStat fresh_votes (Some 0) (Some 500));
   ("smokestack", ReviewerStat fresh_votes (Some 0) (Some 7))].

(** The report built from them. *)
Definition bots_report : report :=
  Eval vm_compute in
    match build_report [nova] with_bots with
    | Ok rep => rep
    | Raise _ => Report [] 0 0
    end.

(** ** The other functions of [reviewers.py] and [utils.py] *)

(** [SECONDS_PER_DAY = 60*60*24] *)
Definition SECONDS_PER_DAY : Z := 60 * 60 * 24.

(** [round_to_day]: on integers [/] is the floor division. *)
Definition round_to_day (ts : Z) : Z :=
  (ts / SECONDS_PER_DAY) * SECONDS_PER_DAY.

(** The counted approvals of the reviewer [k], and how many approvals
    of a list pass a test. *)
Definition by_reviewer (ts : Z) (k : string) (review : approval) : bool :=
  counted ts review && bool_decide (reviewer_of review = k).

Definition count_of (f : approval -> bool) (l : list approval) : Z :=
  Z.of_nat (length (List.filter f l)).

(** What one counted approval adds to the readings of the mapping. *)
Definition adds (ts lcp lcn : Z) (k : string) (review : approval)
    (s s' : reviewers_map) : Prop :=
  total_of s' k = total_of s k + (if by_reviewer ts k review then 1 else 0) /\
  disagreements_of s' k =
    disagreements_of s k
    + (if by_reviewer ts k review && (rule_A lcn review || rule_B lcp review)
       then 1 else 0) /\
  (forall label,
     vote_of s' k label =
       vote_of s k label
       + (if by_reviewer ts k review && bool_decide (value review = label)
          then 1 else 0)) /\
  (is_Some (s' !! k) <-> is_Some (s !! k) \/ by_reviewer ts k review = true).

(** The entry [o] of the reviewer [k] once the approvals [l] are
    tallied, from the entry [o0] before: untouched when [k] has no
    counted approval in [l], and otherwise with all three keys, the
    counts of [o0] (0 for what it lacks) raised by those of [l]. *)
Definition settled (ts lcp lcn : Z) (k : string) (l : list approval)
    (o0 o : option reviewer_stat) : Prop :=
  if 0 <? count_of (by_reviewer ts k) l then
    exists st',
      o = Some st' /\
      total st' =
        Some (from_option stat_total 0 o0 + count_of (by_reviewer ts k) l) /\
      disagreements st' =
        Some (from_option stat_disagreements 0 o0
              + count_of (fun r => by_reviewer ts k r
                                   && (rule_A lcn r || rule_B lcp r)) l) /\
      forall label,
        votes st' !! label =
          if 0 <? count_of (fun r => by_reviewer ts k r
                                     && bool_decide (value r = label)) l
          then Some (from_option (fun st => stat_vote st label) 0 o0
                     + count_of (fun r => by_reviewer ts k r
                                          && bool_decide (value r = label)) l)
          else votes (default fresh_stat o0) !! label
  else o = o0.

(** The patchsets that [main] hands to [process_patchset] for a project
    and its changes, in the order of the loops. *)
Definition patchsets_of (changes : list change) : list patchset :=
  concat ((fun ch => default [] (patchSets ch)) <$> changes).

(** An entry whose total is the sum of its four vote counts and whose
    disagreements are between 0 and that total. *)
Definition balanced (st : reviewer_stat) : Prop :=
  voted st /\ stat_total st = votes_sum st /\
  0 <= stat_disagreements st <= stat_total st.

Definition all_balanced (s : reviewers_map) : Prop :=
  forall k st, s !! k = Some st -> balanced st.

(** The loop of [patch_set_approved]: [True] at the first approval of
    type ['Approved'], or of type ['Workflow'] with a positive value;
    [int] is applied to the value of a ['Workflow'] approval only. *)
Fixpoint approved_in (l : list approval) : result bool :=
  match l with
  | [] => Ok false
  | review :: l' =>
      if bool_decide (type review = "Approved") then Ok true
      else if bool_decide (type review = "Workflow") then
        match py_int (value review) with
        | None => Raise ValueError
        | Some v => if 0 <? v then Ok true else approved_in l'
        end
      else approved_in l'
  end.

Definition patch_set_approved (patch_set : patchset) : result bool :=
  approved_in (approvals_of patch_set).

(** What [approved_in] looks for. *)
Definition approves (review : approval) : Prop :=
  type review = "Approved" \/
  (type review = "Workflow" /\ exists v, py_int (value review) = Some v /\ 0 < v).

(** A change as [is_workinprogress] reads it: [change['status']] beside
    the patchsets. *)
Record gerrit_change := GerritChange {
  status : option string;
  as_change : change
}.

(** How a call of [is_workinprogress] ends. *)
Inductive wip_outcome :=
| WipReturn (b : bool)
| WipKeyError
| WipIndexError
| WipValueError.

(** The loop of [is_workinprogress] over the approvals of the last
    patchset. *)
Fixpoint wip_in (l : list approval) : wip_outcome :=
  match l with
  | [] => WipReturn false
  | a :: l' =>
      if bool_decide (type a = "Workflow") then
        match py_int (value a) with
        | None => WipValueError
        | Some v => if v <? 0 then WipReturn true else wip_in l'
        end
      else wip_in l'
  end.

Definition is_workinprogress (c : gerrit_change) : wip_outcome :=
  match status c with
  | None => WipKeyError
  | Some st =>
      if bool_decide (st <> "NEW") then WipReturn true
      else
        match patchSets (as_change c) with
        | None => WipKeyError
        | Some pss =>
            match last pss with
            | None => WipIndexError
            | Some last_patch =>
                match approvals last_patch with
                | None => WipReturn false
                | Some l => wip_in l
                end
            end
        end
  end.

(** What [wip_in] looks for. *)
Definition marks_wip (a : approval) : Prop :=
  type a = "Workflow" /\ exists v, py_int (value a) = Some v /\ v < 0.

(** [list.sort(key=...)]: stable, ascending. *)
Fixpoint insert_asc {A} (key : A -> Z) (x : A) (l : list A) : list A :=
  match l with
  | [] => [x]
  | y :: l' => if key y <? key x then y :: insert_asc key x l' else x :: l
  end.

Definition sort_asc {A} (key : A -> Z) (l : list A) : list A :=
  foldr (insert_asc key) [] l.

(** A patchset as [get_age_of_patch] reads it: [patch['createdOn']]
    beside the approvals. *)
Record gerrit_patch := GerritPatch {
  createdOn : option Z;
  as_patchset : patchset
}.

(** [get_age_of_patch]: what the call returns or raises, and the patch
    as the call leaves it, its approvals sorted in place when it has
    the key. *)
Definition get_age_of_patch (patch : gerrit_patch) (now_ts : Z)
  : result Z * gerrit_patch :=
  let sorted := sort_asc grantedOn (approvals_of (as_patchset patch)) in
  (match sorted with
   | a :: _ => Ok (now_ts - grantedOn a)
   | [] => t <~ rlookup (createdOn patch) ;; Ok (now_ts - t)
   end,
   match approvals (as_patchset patch) with
   | Some _ => GerritPatch (createdOn patch) (Patchset (Some sorted))
   | None => patch
   end).

(** A project file as [get_projects_info] and [projects_q] read it:
    the descriptor, [project['subprojects']] and
    [project.get('unofficial')]. *)
Record project_file := ProjectFile {
  descriptor : project;
  subprojects : list string;
  unofficial : option bool
}.

(** [sep.join(l)] *)
Fixpoint join (sep : string) (l : list string) : string :=
  match l with
  | [] => ""
  | x :: l' =>
      match l' with
      | [] => x
      | _ :: _ => (x ++ sep ++ join sep l')%string
      end
  end.

Definition projects_q (p : project_file) : string :=
  ("(" ++ join " OR " ((fun s => "project:" ++ s) <$> subprojects p) ++ ")")%string.

(** The loop of [get_projects_info] over the file names; [isfile] is
    [os.path.isfile] and [load fn] is the [json.loads] of the content of
    [fn], whose exception is raised again. *)
Fixpoint load_projects (isfile : string -> bool)
    (load : string -> result project_file) (all_projects : bool)
    (files : list string) : result (list project_file) :=
  match files with
  | [] => Ok []
  | fn :: files' =>
      if isfile fn then
        p <~ load fn ;;
        rest <~ load_projects isfile load all_projects files' ;;
        Ok (if negb (all_projects && default false (unofficial p))
            then p :: rest else rest)
      else load_projects isfile load all_projects files'
  end.

(** [get_projects_info(project, all_projects)]; [json_files] is what
    [glob.glob('%s/*.json' % base_dir)] gives. *)
Definition get_projects_info (isfile : string -> bool)
    (load : string -> result project_file) (json_files : list string)
    (project : string) (all_projects : bool) : result (list project_file) :=
  load_projects isfile load all_projects
    (if all_projects then json_files else [project]).

(** The calls of [process_patchset] that the loops of [main] make, in
    order: each patchset with the project it was fetched for. *)
Definition work_patchsets (work : list (project * list change))
  : list (project * patchset) :=
  concat ((fun pc => (fun ps => (fst pc, ps)) <$> patchsets_of (snd pc)) <$> work).

(** All the approvals that those calls go through. *)
Definition work_approvals (work : list (project * list change)) : list approval :=
  concat ((fun pp => approvals_of (snd pp)) <$> work_patchsets work).

(** Two runs add the same to every reading of the mapping. *)
Definition same_growth (sa sa' sb sb' : reviewers_map) : Prop :=
  forall k,
    total_of sa' k - total_of sa k = total_of sb' k - total_of sb k /\
    disagreements_of sa' k - disagreements_of sa k
      = disagreements_of sb' k - disagreements_of sb k /\
    (forall label,
       vote_of sa' k label - vote_of sa k label
         = vote_of sb' k label - vote_of sb k label).

(** Two batches of work for the sample project. *)
Definition nova_batch1 : list (project * list change) :=
  [(nova, [Change (Some [scenario1])])].

Definition nova_batch2 : list (project * list change) :=
  [(nova, [Change None; Change (Some [scenario2; anonymous_votes])])].

(** The terms of a query after the first: [" OR project:"] before
    each name. *)
Definition or_terms (l : list string) : string :=
  foldr (fun p acc => (" OR project:" ++ p ++ acc)%string) "" l.

(** A directory of three project files, one of them unofficial, and a
    name that is no file. *)
Definition sample_isfile (fn : string) : bool :=
  bool_decide (fn ∈ ["projects/nova.json"; "projects/lab.json";
                     "projects/glance.json"]).

Definition sample_load (fn : string) : result project_file :=
  if bool_decide (fn = "projects/nova.json")
  then Ok (ProjectFile nova ["openstack/nova"; "openstack/python-novaclient"] None)
  else if bool_decide (fn = "projects/lab.json")
  then Ok (ProjectFile (Project "lab" []) ["stackforge/lab"] (Some true))
  else if bool_decide (fn = "projects/glance.json")
  then Ok (ProjectFile (Project "glance" ["carol"]) ["openstack/glance"]
             (Some false))
  else Raise ValueError.

Definition sample_files : list string :=
  ["projects/glance.json"; "projects/lab.json"; "projects/nova.json"].

(** The report of [main] on the sample work. *)
Definition nova_report : report :=
  Eval vm_compute in
    match main_report nova_work 0 with
    | Ok rep => rep
    | Raise _ => Report [] 0 0
    end.

(** One reviewer with three negative code reviews and no positive
    one. *)
Definition minus_only_work : list (project * list change) :=
  [(nova, [Change (Some [Patchset (Some [crvw "bob" "-1" 10]);
                         Patchset (Some [crvw "bob" "-1" 20]);
                         Patchset (Some [crvw "bob" "-2" 30])])])].

(** ** The monad and the loops *)

Lemma for_each_app {A} (body : A -> M unit) (l1 l2 : list A) (s : reviewers_map) :
  for_each body (l1 ++ l2) s = (for_each body l1 ;;; for_each body l2) s.
Proof.
  revert s. induction l1 as [|x l1 IH]; intros s; simpl.
  - reflexivity.
  - unfold bind in *. destruct (body x s) as [s1 [[]|e]]; [|reflexivity].
    apply IH.
Qed.

(** ** The second loop's body in closed form *)

Lemma tally_review_skip lcp lcn ts review s :
  counted ts review = false ->
  tally_review lcp lcn ts review s = (s, Ok tt).
Proof.
  unfold counted, tally_review. intros H.
  destruct (grantedOn review <? ts); [reflexivity|].
  simpl in H. apply bool_decide_eq_false in H.
  rewrite bool_decide_eq_true_2 by assumption. reflexivity.
Qed.

Lemma tally_review_counted lcp lcn ts review s :
  counted ts review = true ->
  tally_review lcp lcn ts review s =
    let k := reviewer_of review in
    let st := default fresh_stat (s !! k) in
    match votes st !! value review with
    | None => (<[k := stat_seen st]> s, Raise KeyError)
    | Some cur => (<[k := stat_tallied lcp lcn review cur st]> s, Ok tt)
    end.
Proof.
  unfold counted, tally_review. intros H.
  apply andb_true_iff in H as [Hts Hty].
  apply negb_true_iff in Hts. apply bool_decide_eq_true in Hty.
  rewrite Hts, bool_decide_eq_false_2 by (intros Hne; exact (Hne Hty)).
  cbv zeta. set (k := reviewer_of review).
  unfold bind, setdefault, getitem, setitem, when, bump_disagreements, bind,
    getitem, setitem, lookup_or_raise, ret, raise, stat_seen, stat_tallied,
    rule_A, rule_B.
  destruct (s !! k) as [st|] eqn:Hk; cbn [default];
    rewrite ?Hk, ?lookup_insert_eq, ?insert_insert_eq.
  all: cbn [votes total disagreements default].
  all: unfold id.
  all: match goal with
       | |- context [votes ?x !! ?v] => destruct (votes x !! v) as [cur|]
       end; [|reflexivity].
  all: repeat match goal with
       | |- context [bool_decide ?P && ?c] => destruct (bool_decide P && c)
       end.
  all: repeat (rewrite ?lookup_insert_eq, ?insert_insert_eq;
               cbn [votes total disagreements default]).
  all: rewrite ?Z.add_0_r; reflexivity.
Qed.

(** ** The first loop in closed form *)

Lemma foldr_max_base (a g : Z) (l : list Z) :
  foldr Z.max (Z.max a g) l = Z.max g (foldr Z.max a l).
Proof. induction l as [|x l IH]; simpl; [lia | rewrite IH; lia]. Qed.

Lemma foldr_max_le_base (a : Z) (l : list Z) : a <= foldr Z.max a l.
Proof. induction l as [|x l IH]; simpl; lia. Qed.

Lemma core_vote_step_cases proj acc review :
  core_vote_step proj acc review =
    if core_vote_ok proj review
    then Ok (if is_core_vote proj true review
             then Z.max (fst acc) (grantedOn review) else fst acc,
             if is_core_vote proj false review
             then Z.max (snd acc) (grantedOn review) else snd acc)
    else Raise ValueError.
Proof.
  unfold core_vote_step, core_vote_ok, is_core_vote. destruct acc as [p n].
  destruct (decide (type review = "CRVW")) as [Hty|Hty].
  - rewrite (bool_decide_eq_false_2 (type review <> "CRVW")) by tauto.
    rewrite (bool_decide_eq_true_2 _ Hty).
    destruct (decide (reviewer_of review ∈ core_team proj)) as [Hc|Hc].
    + rewrite (bool_decide_eq_false_2 (reviewer_of review ∉ core_team proj)) by tauto.
      rewrite (bool_decide_eq_true_2 _ Hc). simpl.
      destruct (py_int (value review)) as [v|] eqn:Hv.
      * rewrite bool_decide_eq_true_2 by eauto.
        destruct (Z.ltb_spec 0 v), (Z.leb_spec v 0); try lia; reflexivity.
      * rewrite bool_decide_eq_false_2 by (intros [? ?]; discriminate).
        reflexivity.
    + rewrite (bool_decide_eq_true_2 (reviewer_of review ∉ core_team proj)) by assumption.
      rewrite (bool_decide_eq_false_2 _ Hc). reflexivity.
  - rewrite (bool_decide_eq_true_2 (type review <> "CRVW")) by assumption.
    rewrite (bool_decide_eq_false_2 _ Hty). reflexivity.
Qed.

Lemma core_votes_from_closed proj acc l :
  core_votes_from proj acc l =
    if forallb (core_vote_ok proj) l
    then Ok (foldr Z.max (fst acc)
               (grantedOn <$> List.filter (is_core_vote proj true) l),
             foldr Z.max (snd acc)
               (grantedOn <$> List.filter (is_core_vote proj false) l))
    else Raise ValueError.
Proof.
  revert acc. induction l as [|r l IH]; intros [p n]; simpl.
  - reflexivity.
  - rewrite core_vote_step_cases.
    destruct (core_vote_ok proj r); [|reflexivity].
    rewrite IH. simpl. destruct (forallb (core_vote_ok proj) l); [|reflexivity].
    destruct (is_core_vote proj true r), (is_core_vote proj false r); simpl;
      rewrite ?foldr_max_base; reflexivity.
Qed.

Lemma core_votes_closed proj l :
  core_votes proj l =
    if forallb (core_vote_ok proj) l
    then Ok (latest_core_vote_spec proj true l, latest_core_vote_spec proj false l)
    else Raise ValueError.
Proof. apply core_votes_from_closed. Qed.

Lemma latest_core_vote_spec_app proj b l1 l2 :
  latest_core_vote_spec proj b (l1 ++ l2) =
    Z.max (latest_core_vote_spec proj b l1) (latest_core_vote_spec proj b l2).
Proof.
  unfold latest_core_vote_spec. rewrite List.filter_app, fmap_app.
  induction (grantedOn <$> List.filter (is_core_vote proj b) l1) as [|x l IH]; simpl.
  - pose proof (foldr_max_le_base 0
      (grantedOn <$> List.filter (is_core_vote proj b) l2)). lia.
  - rewrite IH. lia.
Qed.

Lemma latest_core_vote_spec_nonneg proj b l : 0 <= latest_core_vote_spec proj b l.
Proof. apply foldr_max_le_base. Qed.

Lemma latest_core_vote_spec_cons proj b r l :
  latest_core_vote_spec proj b (r :: l) =
    if is_core_vote proj b r
    then Z.max (grantedOn r) (latest_core_vote_spec proj b l)
    else latest_core_vote_spec proj b l.
Proof.
  unfold latest_core_vote_spec. simpl.
  destruct (is_core_vote proj b r); reflexivity.
Qed.

(** ** The vote labels *)

Lemma label_pos_is_label (v : string) : v ∈ ["1"; "2"] -> v ∈ vote_labels.
Proof.
  unfold vote_labels. rewrite !elem_of_cons, !elem_of_nil. tauto.
Qed.

Lemma label_neg_is_label (v : string) : v ∈ ["-1"; "-2"] -> v ∈ vote_labels.
Proof.
  unfold vote_labels. rewrite !elem_of_cons, !elem_of_nil. tauto.
Qed.

Lemma label_pos_not_neg (v : string) : v ∈ ["1"; "2"] -> v ∉ ["-1"; "-2"].
Proof.
  rewrite !elem_of_cons, !elem_of_nil.
  intros [->|[->|[]]] [H|[H|[]]]; discriminate.
Qed.

Lemma py_int_label v : v ∈ vote_labels -> is_Some (py_int v).
Proof.
  unfold vote_labels. rewrite !elem_of_cons, elem_of_nil.
  intros [->|[->|[->|[->|[]]]]]; vm_compute; eauto.
Qed.

(** ** Entries keep their four vote labels *)

Lemma has_labels_fresh : has_labels fresh_stat.
Proof.
  intros label H. unfold vote_labels in H.
  repeat (apply elem_of_cons in H as [->|H]); try (vm_compute; eauto).
  by apply elem_of_nil in H.
Qed.

Lemma has_labels_seen st : has_labels st -> has_labels (stat_seen st).
Proof. intros H label Hl. exact (H label Hl). Qed.

Lemma has_labels_tallied lcp lcn review cur st :
  has_labels st -> has_labels (stat_tallied lcp lcn review cur st).
Proof.
  intros H label Hl. simpl.
  destruct (decide (value review = label)) as [->|Hne].
  - rewrite lookup_insert_eq. eauto.
  - rewrite lookup_insert_ne by assumption. exact (H label Hl).
Qed.

Lemma has_labels_default s k :
  wf_reviewers s -> has_labels (default fresh_stat (s !! k)).
Proof.
  intros Hwf. destruct (s !! k) as [st|] eqn:Hk; simpl.
  - exact (Hwf k st Hk).
  - exact has_labels_fresh.
Qed.

Lemma wf_insert s k st :
  wf_reviewers s -> has_labels st -> wf_reviewers (<[k := st]> s).
Proof.
  intros Hwf Hst k' st' Hk'.
  destruct (decide (k = k')) as [->|Hne].
  - rewrite lookup_insert_eq in Hk'. by inversion Hk'; subst.
  - rewrite lookup_insert_ne in Hk' by assumption. exact (Hwf k' st' Hk').
Qed.

Lemma wf_empty : wf_reviewers ∅.
Proof. intros k st H. by rewrite lookup_empty in H. Qed.

Lemma wf_tally_review lcp lcn ts review s s' out :
  wf_reviewers s ->
  tally_review lcp lcn ts review s = (s', out) ->
  wf_reviewers s'.
Proof.
  intros Hwf Hrun. destruct (counted ts review) eqn:Hc.
  - rewrite tally_review_counted in Hrun by assumption. cbv zeta in Hrun.
    pose proof (has_labels_default s (reviewer_of review) Hwf) as Hst.
    destruct (votes _ !! value review) as [cur|]; inversion Hrun; subst;
      apply wf_insert; auto using has_labels_seen, has_labels_tallied.
  - rewrite tally_review_skip in Hrun by assumption. by inversion Hrun; subst.
Qed.

Lemma wf_tally lcp lcn ts l s s' out :
  wf_reviewers s ->
  tally lcp lcn ts l s = (s', out) ->
  wf_reviewers s'.
Proof.
  unfold tally. revert s. induction l as [|r l IH]; intros s Hwf Hrun; simpl in Hrun.
  - by inversion Hrun; subst.
  - unfold bind in Hrun.
    destruct (tally_review lcp lcn ts r s) as [s1 [[]|e]] eqn:Hstep.
    + eapply IH; [|exact Hrun]. eapply wf_tally_review; eauto.
    + inversion Hrun; subst. eapply wf_tally_review; eauto.
Qed.

(** A counted approval with one of the four labels is tallied without
    an exception when the entries have their labels. *)
Lemma tally_review_ok lcp lcn ts review s :
  wf_reviewers s ->
  counted ts review = true ->
  value review ∈ vote_labels ->
  exists cur,
    votes (default fresh_stat (s !! reviewer_of review)) !! value review = Some cur /\
    tally_review lcp lcn ts review s =
      (<[reviewer_of review :=
           stat_tallied lcp lcn review cur
             (default fresh_stat (s !! reviewer_of review))]> s, Ok tt).
Proof.
  intros Hwf Hc Hv.
  destruct (has_labels_default s (reviewer_of review) Hwf _ Hv) as [cur Hcur].
  exists cur. split; [exact Hcur|].
  rewrite tally_review_counted by assumption. cbv zeta. by rewrite Hcur.
Qed.

Lemma disagreements_of_default s k :
  default 0 (disagreements (default fresh_stat (s !! k))) = disagreements_of s k.
Proof. unfold disagreements_of. by destruct (s !! k). Qed.

Lemma total_of_default s k :
  default 0 (total (default fresh_stat (s !! k))) = total_of s k.
Proof. unfold total_of. by destruct (s !! k). Qed.

Lemma process_patchset_unfold proj ps ts s lcp lcn :
  core_votes proj (approvals_of ps) = Ok (lcp, lcn) ->
  process_patchset proj ps ts s = tally lcp lcn ts (approvals_of ps) s.
Proof. unfold process_patchset. by intros ->. Qed.

Lemma tally_split lcp lcn ts pre review post s s1 s2 :
  tally lcp lcn ts pre s = (s1, Ok tt) ->
  tally_review lcp lcn ts review s1 = (s2, Ok tt) ->
  tally lcp lcn ts (pre ++ review :: post) s = tally lcp lcn ts post s2.
Proof.
  unfold tally. intros Hpre Hstep. rewrite for_each_app. unfold bind.
  rewrite Hpre. simpl. unfold bind. by rewrite Hstep.
Qed.

(** A core-team member's -2 at 100 and another reviewer's +2 at [t],
    from the empty mapping with cutoff 0. *)
Lemma core_vote_ok_label proj who v t :
  v ∈ vote_labels -> core_vote_ok proj (crvw who v t) = true.
Proof.
  intros Hv. unfold core_vote_ok.
  rewrite (bool_decide_eq_true_2 _ (py_int_label _ Hv)). apply orb_true_r.
Qed.

Lemma is_core_vote_crvw proj b who v t :
  is_core_vote proj b (crvw who v t) =
    bool_decide (who ∈ core_team proj)
    && match py_int v with
       | Some x => if b then 0 <? x else x <=? 0
       | None => false
       end.
Proof. reflexivity. Qed.

Lemma core_veto_then_vote proj core rev t :
  core ∈ core_team proj -> rev ∉ core_team proj -> 0 <= t ->
  process_patchset proj
    (Patchset (Some [crvw core "-2" 100; crvw rev "2" t])) 0 ∅
  = (<[rev := ReviewerStat (<["2" := 1]> fresh_votes)
                 (Some (if t <? 100 then 1 else 0)) (Some 1)]>
       (<[core := ReviewerStat (<["-2" := 1]> fresh_votes) (Some 0) (Some 1)]> ∅),
     Ok tt).
Proof.
  intros Hc Hr Ht.
  assert (Hne : core <> rev) by congruence.
  assert (Hcore : core_votes proj [crvw core "-2" 100; crvw rev "2" t]
                  = Ok (0, 100)).
  { rewrite core_votes_closed. cbn [forallb].
    rewrite !core_vote_ok_label by (unfold vote_labels; repeat constructor).
    cbn [andb]. rewrite !latest_core_vote_spec_cons, !is_core_vote_crvw.
    rewrite (bool_decide_eq_true_2 (core ∈ core_team proj)) by assumption.
    rewrite (bool_decide_eq_false_2 (rev ∈ core_team proj)) by assumption.
    reflexivity. }
  rewrite (process_patchset_unfold _ _ _ _ 0 100) by exact Hcore.
  unfold approvals_of, tally. cbn [approvals default from_option]. unfold id.
  cbn [for_each]. unfold bind.
  rewrite tally_review_counted by reflexivity.
  cbv zeta. replace (reviewer_of (crvw core "-2" 100)) with core by reflexivity.
  rewrite lookup_empty. cbn [default from_option].
  replace (votes fresh_stat !! value (crvw core "-2" 100)) with (Some 0)
    by reflexivity.
  rewrite tally_review_counted.
  2:{ unfold counted, crvw. cbn [type by_username value grantedOn].
      destruct (Z.ltb_spec t 0); [lia|reflexivity]. }
  cbv zeta. replace (reviewer_of (crvw rev "2" t)) with rev by reflexivity.
  rewrite lookup_insert_ne, lookup_empty by assumption.
  cbn [default from_option].
  replace (votes fresh_stat !! value (crvw rev "2" t)) with (Some 0)
    by reflexivity.
  unfold stat_tallied, rule_A, rule_B.
  cbn [value grantedOn crvw votes fresh_stat disagreements total default
       from_option].
  rewrite (bool_decide_eq_true_2 ("2" ∈ ["1"; "2"])) by repeat constructor.
  rewrite (bool_decide_eq_false_2 ("2" ∈ ["-1"; "-2"]))
    by (apply label_pos_not_neg; repeat constructor).
  cbn [andb]. destruct (t <? 100); reflexivity.
Qed.

(** ** Disagreement rule A *)

(** C1. In a patchset whose first loop gives [latest_core_neg_vote],
    that value is the maximum [grantedOn] over the core-team code
    reviews of value at most 0 (0 if none), and a counted code review
    of value 1 or 2 is tallied with its reviewer's [disagreements]
    incremented exactly when its [grantedOn] is strictly below that
    value. With a core-team member's -2 at 100 and cutoff 0, the +2 of a
    reviewer outside the core team ends with 1 disagreement when cast at
    50 and with 0 when cast at 200. *)
Theorem rule_A_exact proj ps ts (pre post : list approval) review lcp lcn s s1 :
  approvals_of ps = pre ++ review :: post ->
  core_votes proj (approvals_of ps) = Ok (lcp, lcn) ->
  counted ts review = true ->
  value review ∈ ["1"; "2"] ->
  wf_reviewers s ->
  tally lcp lcn ts pre s = (s1, Ok tt) ->
  lcn = latest_core_vote_spec proj false (approvals_of ps) /\
  (exists s2,
     tally_review lcp lcn ts review s1 = (s2, Ok tt) /\
     disagreements_of s2 (reviewer_of review) =
       disagreements_of s1 (reviewer_of review)
       + (if grantedOn review <? lcn then 1 else 0) /\
     process_patchset proj ps ts s = tally lcp lcn ts post s2) /\
  (forall proj' core rev,
     core ∈ core_team proj' -> rev ∉ core_team proj' ->
     disagreements_of
       (fst (process_patchset proj'
               (Patchset (Some [crvw core "-2" 100; crvw rev "2" 50])) 0 ∅)) rev
       = 1 /\
     disagreements_of
       (fst (process_patchset proj'
               (Patchset (Some [crvw core "-2" 100; crvw rev "2" 200])) 0 ∅)) rev
       = 0) /\
  disagreements_of (fst (process_patchset nova scenario1 0 ∅)) "bob" = 1 /\
  disagreements_of (fst (process_patchset nova scenario2 0 ∅)) "bob" = 0.
Proof.
  intros Happ Hcore Hc Hv Hwf Hpre.
  split; [|split; [|split; [|split; reflexivity]]].
  3:{ intros proj' core rev Hcore' Hrev.
      rewrite !core_veto_then_vote by (assumption || lia).
      unfold disagreements_of. cbn [fst]. rewrite !lookup_insert_eq.
      split; reflexivity. }
  - rewrite core_votes_closed in Hcore.
    destruct (forallb _ _); [|discriminate]. by inversion Hcore.
  - assert (Hwf1 : wf_reviewers s1) by (eapply wf_tally; eauto).
    assert (Hv' : value review ∈ vote_labels) by auto using label_pos_is_label.
    destruct (tally_review_ok lcp lcn ts review s1 Hwf1 Hc Hv') as (cur & Hcur & Hstep).
    eexists. split; [exact Hstep|]. split.
    + unfold disagreements_of at 1. rewrite lookup_insert_eq. simpl.
      unfold stat_disagreements. simpl. rewrite disagreements_of_default.
      unfold rule_A, rule_B.
      rewrite (bool_decide_eq_true_2 _ Hv).
      rewrite (bool_decide_eq_false_2 (value review ∈ ["-1"; "-2"]))
        by auto using label_pos_not_neg.
      simpl. lia.
    + rewrite (process_patchset_unfold _ _ _ _ _ _ Hcore), Happ.
      eapply tally_split; eauto.
Qed.

Lemma rule_A_exact_witness :
  100 = latest_core_vote_spec nova false (approvals_of scenario1) /\
  (exists s2,
     tally_review 0 100 0 (crvw "bob" "2" 50)
       (fst (tally 0 100 0 [crvw "alice" "-2" 100] ∅)) = (s2, Ok tt) /\
     disagreements_of s2 "bob" =
       disagreements_of (fst (tally 0 100 0 [crvw "alice" "-2" 100] ∅)) "bob"
       + (if 50 <? 100 then 1 else 0) /\
     process_patchset nova scenario1 0 ∅ = tally 0 100 0 [] s2) /\
  (forall proj' core rev,
     core ∈ core_team proj' -> rev ∉ core_team proj' ->
     disagreements_of
       (fst (process_patchset proj'
               (Patchset (Some [crvw core "-2" 100; crvw rev "2" 50])) 0 ∅)) rev
       = 1 /\
     disagreements_of
       (fst (process_patchset proj'
               (Patchset (Some [crvw core "-2" 100; crvw rev "2" 200])) 0 ∅)) rev
       = 0) /\
  disagreements_of (fst (process_patchset nova scenario1 0 ∅)) "bob" = 1 /\
  disagreements_of (fst (process_patchset nova scenario2 0 ∅)) "bob" = 0.
Proof.
  apply (rule_A_exact nova scenario1 0 [crvw "alice" "-2" 100] []
           (crvw "bob" "2" 50) 0 100 ∅
           (fst (tally 0 100 0 [crvw "alice" "-2" 100] ∅))).
  - reflexivity.
  - reflexivity.
  - reflexivity.
  - repeat constructor.
  - exact wf_empty.
  - vm_compute. reflexivity.
Defined.

(** ** Approvals the two loops pass over *)

Lemma tally_review_ext lcp lcn lcp' lcn' ts review s :
  (ts <= grantedOn review ->
   (grantedOn review <? lcn) = (grantedOn review <? lcn') /\
   (grantedOn review <? lcp) = (grantedOn review <? lcp')) ->
  tally_review lcp lcn ts review s = tally_review lcp' lcn' ts review s.
Proof.
  intros H. destruct (counted ts review) eqn:Hc.
  - rewrite !tally_review_counted by assumption.
    unfold counted in Hc. apply andb_true_iff in Hc as [Hts _].
    apply negb_true_iff, Z.ltb_ge in Hts. destruct (H Hts) as [Hn Hp].
    unfold stat_tallied, rule_A, rule_B. by rewrite Hn, Hp.
  - by rewrite !tally_review_skip.
Qed.

Lemma tally_ext lcp lcn lcp' lcn' ts l s :
  (forall g, ts <= g ->
     (g <? lcn) = (g <? lcn') /\ (g <? lcp) = (g <? lcp')) ->
  tally lcp lcn ts l s = tally lcp' lcn' ts l s.
Proof.
  intros H. unfold tally. revert s. induction l as [|r l IH]; intros s; simpl.
  - reflexivity.
  - unfold bind. rewrite (tally_review_ext lcp lcn lcp' lcn') by auto.
    destruct (tally_review lcp' lcn' ts r s) as [s1 [[]|e]]; auto.
Qed.

Lemma tally_drop lcp lcn ts (pre post : list approval) review s :
  counted ts review = false ->
  tally lcp lcn ts (pre ++ review :: post) s = tally lcp lcn ts (pre ++ post) s.
Proof.
  intros Hc. unfold tally. rewrite !for_each_app. unfold bind.
  destruct (for_each _ pre s) as [s1 [[]|e]]; [|reflexivity].
  simpl. unfold bind. by rewrite tally_review_skip.
Qed.

Lemma latest_core_vote_spec_drop proj b (pre post : list approval) review :
  latest_core_vote_spec proj b (pre ++ review :: post) =
    if is_core_vote proj b review
    then Z.max (grantedOn review) (latest_core_vote_spec proj b (pre ++ post))
    else latest_core_vote_spec proj b (pre ++ post).
Proof.
  rewrite !latest_core_vote_spec_app, latest_core_vote_spec_cons.
  destruct (is_core_vote proj b review); lia.
Qed.

(** An approval that the second loop skips, on which the first loop
    does not raise, and that is older than the cutoff whenever the first
    loop uses it, can be removed from the patchset without changing what
    [process_patchset] does. *)
Lemma process_patchset_drop proj (pre post : list approval) review ts s :
  counted ts review = false ->
  core_vote_ok proj review = true ->
  (forall b, is_core_vote proj b review = true -> grantedOn review < ts) ->
  process_patchset proj (Patchset (Some (pre ++ review :: post))) ts s =
  process_patchset proj (Patchset (Some (pre ++ post))) ts s.
Proof.
  intros Hc Hok Hold. unfold process_patchset, approvals_of. simpl.
  rewrite !core_votes_closed, !forallb_app. simpl. rewrite Hok. simpl.
  destruct (forallb (core_vote_ok proj) pre && forallb (core_vote_ok proj) post);
    [|reflexivity].
  rewrite tally_drop by assumption. apply tally_ext. intros g Hg.
  rewrite !latest_core_vote_spec_drop.
  split.
  - destruct (is_core_vote proj false review) eqn:Hb; [|reflexivity].
    specialize (Hold false Hb).
    destruct (Z.ltb_spec g (Z.max (grantedOn review)
                (latest_core_vote_spec proj false (pre ++ post)))),
             (Z.ltb_spec g (latest_core_vote_spec proj false (pre ++ post)));
      try reflexivity; lia.
  - destruct (is_core_vote proj true review) eqn:Hb; [|reflexivity].
    specialize (Hold true Hb).
    destruct (Z.ltb_spec g (Z.max (grantedOn review)
                (latest_core_vote_spec proj true (pre ++ post)))),
             (Z.ltb_spec g (latest_core_vote_spec proj true (pre ++ post)));
      try reflexivity; lia.
Qed.

Lemma counted_false_old ts review :
  grantedOn review < ts -> counted ts review = false.
Proof.
  intros H. unfold counted. apply Z.ltb_lt in H. by rewrite H.
Qed.

Lemma counted_false_type ts review :
  type review <> "CRVW" -> counted ts review = false.
Proof.
  intros H. unfold counted. rewrite (bool_decide_eq_false_2 _ H).
  apply andb_false_r.
Qed.

Lemma is_core_vote_type proj b review :
  type review <> "CRVW" -> is_core_vote proj b review = false.
Proof.
  intros H. unfold is_core_vote. by rewrite (bool_decide_eq_false_2 _ H).
Qed.

Lemma core_vote_ok_type proj review :
  type review <> "CRVW" -> core_vote_ok proj review = true.
Proof.
  intros H. unfold core_vote_ok. by rewrite (bool_decide_eq_false_2 _ H).
Qed.

Lemma process_patchset_ok_core_vote_ok proj (pre post : list approval) review ts s :
  snd (process_patchset proj (Patchset (Some (pre ++ review :: post))) ts s) = Ok tt ->
  core_vote_ok proj review = true.
Proof.
  unfold process_patchset, approvals_of. simpl.
  rewrite core_votes_closed, forallb_app. simpl.
  destruct (core_vote_ok proj review); [reflexivity|].
  rewrite andb_false_r. simpl. discriminate.
Qed.

(** ** Approvals older than the cutoff *)

(** C2, as the code has it. An approval with [grantedOn] below the
    cutoff is skipped by the second loop, so no vote count and no total
    is incremented for it. The first loop does not look at the cutoff:
    if the approval is a code review by a core-team member, the latest
    core vote of its sign is at least its [grantedOn]. It can not cause a
    disagreement for a counted approval, whose [grantedOn] is at or after
    the cutoff and so after it: unless the first loop raises at it, the
    patchset without the approval is processed with the same result. *)
Theorem pre_cutoff_excluded proj (pre post : list approval) review ts s :
  grantedOn review < ts ->
  (forall lcp lcn s', tally_review lcp lcn ts review s' = (s', Ok tt)) /\
  (forall p n v,
     core_votes proj (pre ++ review :: post) = Ok (p, n) ->
     type review = "CRVW" ->
     reviewer_of review ∈ core_team proj ->
     py_int (value review) = Some v ->
     (0 < v -> grantedOn review <= p) /\ (v <= 0 -> grantedOn review <= n)) /\
  (core_vote_ok proj review = true ->
   process_patchset proj (Patchset (Some (pre ++ review :: post))) ts s =
   process_patchset proj (Patchset (Some (pre ++ post))) ts s).
Proof.
  intros Hold. split; [|split].
  - intros. apply tally_review_skip. by apply counted_false_old.
  - intros p n v Hcore Hty Hmem Hv.
    rewrite core_votes_closed in Hcore.
    destruct (forallb _ _); [|discriminate].
    inversion Hcore; subst p n. rewrite !latest_core_vote_spec_drop.
    unfold is_core_vote.
    rewrite (bool_decide_eq_true_2 _ Hty), (bool_decide_eq_true_2 _ Hmem), Hv.
    simpl. split; intros Hsign.
    + apply Z.ltb_lt in Hsign. rewrite Hsign. lia.
    + apply Z.leb_le in Hsign. rewrite Hsign. lia.
  - intros Hok. apply process_patchset_drop; auto using counted_false_old.
Qed.

Lemma pre_cutoff_excluded_witness :
  (forall lcp lcn s',
     tally_review lcp lcn 1000 (crvw "alice" "-2" 100) s' = (s', Ok tt)) /\
  (forall p n v,
     core_votes nova ([] ++ crvw "alice" "-2" 100 :: [crvw "bob" "2" 1050])
       = Ok (p, n) ->
     type (crvw "alice" "-2" 100) = "CRVW" ->
     reviewer_of (crvw "alice" "-2" 100) ∈ core_team nova ->
     py_int (value (crvw "alice" "-2" 100)) = Some v ->
     (0 < v -> grantedOn (crvw "alice" "-2" 100) <= p) /\
     (v <= 0 -> grantedOn (crvw "alice" "-2" 100) <= n)) /\
  (core_vote_ok nova (crvw "alice" "-2" 100) = true ->
   process_patchset nova
     (Patchset (Some ([] ++ crvw "alice" "-2" 100 :: [crvw "bob" "2" 1050])))
     1000 ∅ =
   process_patchset nova (Patchset (Some ([] ++ [crvw "bob" "2" 1050]))) 1000 ∅).
Proof.
  apply (pre_cutoff_excluded nova [] [crvw "bob" "2" 1050]
           (crvw "alice" "-2" 100) 1000 ∅).
  simpl. lia.
Defined.

(** ** Approvals that are not code reviews *)

(** C3. An approval whose type is not CRVW is passed over by both
    loops: the latest core votes are those of the patchset without it,
    the second loop leaves the mapping as it is, and [process_patchset]
    does on the patchset what it does without the approval. *)
Theorem non_crvw_ignored proj (pre post : list approval) review ts s :
  type review <> "CRVW" ->
  core_votes proj (pre ++ review :: post) = core_votes proj (pre ++ post) /\
  (forall lcp lcn s', tally_review lcp lcn ts review s' = (s', Ok tt)) /\
  process_patchset proj (Patchset (Some (pre ++ review :: post))) ts s =
  process_patchset proj (Patchset (Some (pre ++ post))) ts s.
Proof.
  intros Hty. split; [|split].
  - rewrite !core_votes_closed, !forallb_app. simpl.
    rewrite core_vote_ok_type by assumption. simpl.
    rewrite !latest_core_vote_spec_drop, !is_core_vote_type by assumption.
    reflexivity.
  - intros. apply tally_review_skip. by apply counted_false_type.
  - apply process_patchset_drop; auto using counted_false_type, core_vote_ok_type.
    intros b Hb. rewrite is_core_vote_type in Hb by assumption. discriminate.
Qed.

Lemma non_crvw_ignored_witness :
  core_votes nova ([crvw "bob" "2" 50] ++ Approval "APRV" (Some "alice") "1" 70 :: [])
    = core_votes nova ([crvw "bob" "2" 50] ++ []) /\
  (forall lcp lcn s',
     tally_review lcp lcn 0 (Approval "APRV" (Some "alice") "1" 70) s' = (s', Ok tt)) /\
  process_patchset nova
    (Patchset (Some ([crvw "bob" "2" 50]
                     ++ Approval "APRV" (Some "alice") "1" 70 :: []))) 0 ∅ =
  process_patchset nova (Patchset (Some ([crvw "bob" "2" 50] ++ []))) 0 ∅.
Proof.
  apply (non_crvw_ignored nova [crvw "bob" "2" 50] []
           (Approval "APRV" (Some "alice") "1" 70) 0 ∅).
  simpl. discriminate.
Defined.

(** ** A value that is not a vote label *)

Lemma fresh_votes_lookup label :
  fresh_votes !! label = if bool_decide (label ∈ vote_labels) then Some 0 else None.
Proof.
  unfold fresh_votes, vote_labels.
  destruct (decide (label = "-2")) as [->|H1]; [reflexivity|].
  destruct (decide (label = "-1")) as [->|H2]; [reflexivity|].
  destruct (decide (label = "1")) as [->|H3]; [reflexivity|].
  destruct (decide (label = "2")) as [->|H4]; [reflexivity|].
  rewrite !lookup_insert_ne, lookup_empty by congruence.
  rewrite bool_decide_eq_false_2; [reflexivity|].
  rewrite !elem_of_cons, elem_of_nil. tauto.
Qed.

Lemma only_labels_default s k :
  strict_reviewers s -> only_labels (default fresh_stat (s !! k)).
Proof.
  intros Hs. destruct (s !! k) as [st|] eqn:Hk; simpl.
  - exact (Hs k st Hk).
  - intros label. simpl. rewrite fresh_votes_lookup.
    case_bool_decide; [done|]. by intros [? ?].
Qed.

Lemma vote_of_default s k label :
  default 0 (votes (default fresh_stat (s !! k)) !! label) = vote_of s k label.
Proof.
  unfold vote_of. destruct (s !! k); simpl; [reflexivity|].
  rewrite fresh_votes_lookup. by case_bool_decide.
Qed.

Lemma strict_tally_review lcp lcn ts review s :
  strict_reviewers s ->
  strict_reviewers (fst (tally_review lcp lcn ts review s)).
Proof.
  intros Hs. destruct (counted ts review) eqn:Hc.
  - rewrite tally_review_counted by assumption. cbv zeta.
    pose proof (only_labels_default s (reviewer_of review) Hs) as Hst.
    destruct (votes _ !! value review) as [cur|] eqn:Hcur; simpl;
      intros k st Hk;
      (destruct (decide (reviewer_of review = k)) as [<-|Hne];
       [rewrite lookup_insert_eq in Hk; inversion Hk; subst st
       |rewrite lookup_insert_ne in Hk by assumption; by eapply Hs]).
    + intros label [x Hx]. simpl in Hx.
      destruct (decide (value review = label)) as [<-|Hne].
      * apply Hst. eauto.
      * rewrite lookup_insert_ne in Hx by assumption. apply Hst. eauto.
    + exact Hst.
  - by rewrite tally_review_skip.
Qed.

(** The mappings that [process_patchset] builds have the four labels
    only, whether it returns or raises. *)
Lemma strict_process_patchset proj ps ts s :
  strict_reviewers s ->
  strict_reviewers (fst (process_patchset proj ps ts s)).
Proof.
  unfold process_patchset. intros Hs.
  destruct (core_votes proj (approvals_of ps)) as [[lcp lcn]|e]; [|exact Hs].
  unfold tally. generalize (approvals_of ps) as l. intros l. revert s Hs.
  induction l as [|r l IH]; intros s Hs; simpl; [exact Hs|].
  unfold bind. pose proof (strict_tally_review lcp lcn ts r s Hs) as Hstep.
  destruct (tally_review lcp lcn ts r s) as [s1 [[]|e]]; simpl in *; auto.
Qed.

(** C5, as the code has it. A counted code review whose value is none
    of the four labels makes the second loop raise [KeyError] once the
    reviewer's entry is created and its total incremented: the loop
    stops there, no vote count and no [disagreements] is changed, the
    other reviewers' entries are untouched. *)
Theorem unknown_value_raises lcp lcn ts review (post : list approval) s :
  counted ts review = true ->
  value review ∉ vote_labels ->
  strict_reviewers s ->
  exists s',
    tally_review lcp lcn ts review s = (s', Raise KeyError) /\
    tally lcp lcn ts (review :: post) s = (s', Raise KeyError) /\
    is_Some (s' !! reviewer_of review) /\
    total_of s' (reviewer_of review) = total_of s (reviewer_of review) + 1 /\
    disagreements_of s' (reviewer_of review) =
      disagreements_of s (reviewer_of review) /\
    (forall label, vote_of s' (reviewer_of review) label =
                   vote_of s (reviewer_of review) label) /\
    (forall k, k <> reviewer_of review -> s' !! k = s !! k).
Proof.
  intros Hc Hv Hs.
  assert (Hnone : votes (default fresh_stat (s !! reviewer_of review))
                    !! value review = None).
  { destruct (votes _ !! value review) eqn:E; [|reflexivity].
    exfalso. apply Hv. eapply only_labels_default; eauto. }
  assert (Hstep : tally_review lcp lcn ts review s =
            (<[reviewer_of review :=
                 stat_seen (default fresh_stat (s !! reviewer_of review))]> s,
             Raise KeyError)).
  { rewrite tally_review_counted by assumption. cbv zeta. by rewrite Hnone. }
  eexists. split; [exact Hstep|]. split; [|split; [|split; [|split; [|split]]]].
  - unfold tally. simpl. unfold bind. fold (tally_review lcp lcn ts review s).
    by rewrite Hstep.
  - rewrite lookup_insert_eq. eauto.
  - unfold total_of at 1. rewrite lookup_insert_eq. simpl.
    unfold stat_total. simpl. by rewrite total_of_default.
  - unfold disagreements_of at 1. rewrite lookup_insert_eq. simpl.
    unfold stat_disagreements. simpl. by rewrite disagreements_of_default.
  - intros label. unfold vote_of at 1. rewrite lookup_insert_eq. simpl.
    unfold stat_vote. simpl. by rewrite vote_of_default.
  - intros k Hk. by rewrite lookup_insert_ne.
Qed.

Lemma strict_empty : strict_reviewers ∅.
Proof. intros k st H. by rewrite lookup_empty in H. Qed.

Lemma unknown_value_raises_witness :
  exists s',
    tally_review 0 0 0 (crvw "bob" "0" 50) ∅ = (s', Raise KeyError) /\
    tally 0 0 0 (crvw "bob" "0" 50 :: [crvw "carol" "1" 60]) ∅
      = (s', Raise KeyError) /\
    is_Some (s' !! reviewer_of (crvw "bob" "0" 50)) /\
    total_of s' (reviewer_of (crvw "bob" "0" 50))
      = total_of ∅ (reviewer_of (crvw "bob" "0" 50)) + 1 /\
    disagreements_of s' (reviewer_of (crvw "bob" "0" 50)) =
      disagreements_of ∅ (reviewer_of (crvw "bob" "0" 50)) /\
    (forall label, vote_of s' (reviewer_of (crvw "bob" "0" 50)) label =
                   vote_of ∅ (reviewer_of (crvw "bob" "0" 50)) label) /\
    (forall k, k <> reviewer_of (crvw "bob" "0" 50) ->
               s' !! k = (∅ : reviewers_map) !! k).
Proof.
  apply (unknown_value_raises 0 0 0 (crvw "bob" "0" 50) [crvw "carol" "1" 60] ∅).
  - reflexivity.
  - unfold vote_labels. simpl. rewrite !elem_of_cons, elem_of_nil.
    intros [H|[H|[H|[H|[]]]]]; discriminate.
  - exact strict_empty.
Defined.

(** C5, as the claim has it, fails: on a code review of value ['0']
    [process_patchset] raises [KeyError], and the mapping is not the one
    without the approval: the reviewer has an entry with total 1. *)
Lemma unknown_value_crashes :
  let run := process_patchset nova (Patchset (Some [crvw "bob" "0" 50])) 0 ∅ in
  let without := process_patchset nova (Patchset (Some [])) 0 ∅ in
  snd run = Raise KeyError /\
  snd without = Ok tt /\
  total_of (fst run) "bob" = 1 /\
  total_of (fst without) "bob" = 0.
Proof. vm_compute. repeat split. Qed.

(** ** Approvals without a username *)

(** C6, as the code has it. A counted code review with one of the
    four vote labels and no username raises nothing, in either loop,
    and is tallied under the key ["unknown"]: that entry's total and its
    count for the value grow by one, every other key is left as it was.
    Two such votes end up in the one entry ["unknown"], with total 2. *)
Theorem missing_username_is_unknown proj lcp lcn ts review s :
  wf_reviewers s ->
  by_username review = None ->
  counted ts review = true ->
  value review ∈ vote_labels ->
  core_vote_ok proj review = true /\
  (exists s',
    tally_review lcp lcn ts review s = (s', Ok tt) /\
    is_Some (s' !! "unknown") /\
    (forall k, k <> "unknown" -> s' !! k = s !! k) /\
    total_of s' "unknown" = total_of s "unknown" + 1 /\
    vote_of s' "unknown" (value review) =
      vote_of s "unknown" (value review) + 1) /\
  process_patchset nova anonymous_votes 0 ∅ =
    ({["unknown" :=
         ReviewerStat (<["1" := 1]> (<["-1" := 1]> fresh_votes)) (Some 0) (Some 2)]},
     Ok tt).
Proof.
  intros Hwf Hby Hc Hv.
  assert (Hk : reviewer_of review = "unknown").
  { unfold reviewer_of. by rewrite Hby. }
  split; [|split].
  - unfold core_vote_ok. rewrite (bool_decide_eq_true_2 _ (py_int_label _ Hv)).
    apply orb_true_r.
  - destruct (tally_review_ok lcp lcn ts review s Hwf Hc Hv) as (cur & Hcur & Hstep).
    rewrite Hk in *. eexists. split; [exact Hstep|].
    split; [|split; [|split]].
    + rewrite lookup_insert_eq. eauto.
    + intros k Hne. by rewrite lookup_insert_ne.
    + unfold total_of at 1. rewrite lookup_insert_eq. simpl.
      unfold stat_total. simpl. by rewrite total_of_default.
    + unfold vote_of at 1. rewrite lookup_insert_eq. simpl.
      unfold stat_vote. simpl. rewrite lookup_insert_eq. simpl.
      rewrite <- vote_of_default, Hcur. reflexivity.
  - vm_compute. reflexivity.
Qed.

Lemma missing_username_is_unknown_witness :
  core_vote_ok nova (Approval "CRVW" None "1" 10) = true /\
  (exists s',
    tally_review 0 0 0 (Approval "CRVW" None "1" 10) ∅ = (s', Ok tt) /\
    is_Some (s' !! "unknown") /\
    (forall k, k <> "unknown" -> s' !! k = (∅ : reviewers_map) !! k) /\
    total_of s' "unknown" = total_of ∅ "unknown" + 1 /\
    vote_of s' "unknown" (value (Approval "CRVW" None "1" 10)) =
      vote_of ∅ "unknown" (value (Approval "CRVW" None "1" 10)) + 1) /\
  process_patchset nova anonymous_votes 0 ∅ =
    ({["unknown" :=
         ReviewerStat (<["1" := 1]> (<["-1" := 1]> fresh_votes)) (Some 0) (Some 2)]},
     Ok tt).
Proof.
  apply (missing_username_is_unknown nova 0 0 0 (Approval "CRVW" None "1" 10) ∅).
  - exact wf_empty.
  - reflexivity.
  - reflexivity.
  - unfold vote_labels. simpl. repeat constructor.
Defined.

(** C6, as the claim has it, fails: a counted code review without a
    username whose value is none of the four labels raises [KeyError],
    as it does with a username. *)
Lemma missing_username_bad_value_raises :
  by_username (Approval "CRVW" None "0" 10) = None /\
  counted 0 (Approval "CRVW" None "0" 10) = true /\
  snd (process_patchset nova
         (Patchset (Some [Approval "CRVW" None "0" 10])) 0 ∅)
    = Raise KeyError.
Proof. vm_compute. repeat split. Qed.

(** ** At most one disagreement for an approval *)

Lemma rules_exclusive lcp lcn review :
  rule_A lcn review && rule_B lcp review = false.
Proof.
  unfold rule_A, rule_B.
  destruct (decide (value review ∈ ["1"; "2"])) as [H|H].
  - rewrite (bool_decide_eq_false_2 (value review ∈ ["-1"; "-2"]))
      by auto using label_pos_not_neg.
    simpl. apply andb_false_r.
  - by rewrite (bool_decide_eq_false_2 _ H).
Qed.

Lemma disagreements_step lcp lcn ts review s k :
  disagreements_of s k
    <= disagreements_of (fst (tally_review lcp lcn ts review s)) k
    <= disagreements_of s k + 1 /\
  (k <> reviewer_of review ->
   disagreements_of (fst (tally_review lcp lcn ts review s)) k
     = disagreements_of s k).
Proof.
  pose proof (rules_exclusive lcp lcn review) as Hex.
  destruct (counted ts review) eqn:Hc.
  - rewrite tally_review_counted by assumption. cbv zeta.
    destruct (decide (k = reviewer_of review)) as [->|Hne].
    + split; [|congruence].
      destruct (votes _ !! value review) as [cur|]; simpl;
        unfold disagreements_of at 2 3; rewrite lookup_insert_eq; simpl;
        unfold stat_disagreements; simpl; rewrite disagreements_of_default.
      * destruct (rule_A lcn review), (rule_B lcp review);
          try discriminate; lia.
      * lia.
    + destruct (votes _ !! value review) as [cur|]; simpl;
        unfold disagreements_of; rewrite lookup_insert_ne by congruence;
        (split; [lia|reflexivity]).
  - rewrite tally_review_skip by assumption. simpl. split; [lia|reflexivity].
Qed.

Lemma disagreements_process_patchset proj ps ts s k :
  disagreements_of s k
    <= disagreements_of (fst (process_patchset proj ps ts s)) k.
Proof.
  unfold process_patchset.
  destruct (core_votes proj (approvals_of ps)) as [[lcp lcn]|e]; simpl; [|lia].
  unfold tally. generalize (approvals_of ps) as l. intros l. revert s.
  induction l as [|r l IH]; intros s; simpl; [lia|].
  unfold bind. pose proof (disagreements_step lcp lcn ts r s k) as [Hstep _].
  destruct (tally_review lcp lcn ts r s) as [s1 [[]|e]]; simpl in *; [|lia].
  specialize (IH s1). lia.
Qed.

(** C9. The two disagreement tests never both hold of an approval, and
    the second loop's body, on any approval and any mapping, raises a
    reviewer's [disagreements] by one at most and that of no reviewer
    but the approval's. *)
Theorem at_most_one_disagreement lcp lcn ts review s k :
  rule_A lcn review && rule_B lcp review = false /\
  disagreements_of s k
    <= disagreements_of (fst (tally_review lcp lcn ts review s)) k
    <= disagreements_of s k + 1 /\
  (k <> reviewer_of review ->
   disagreements_of (fst (tally_review lcp lcn ts review s)) k
     = disagreements_of s k).
Proof.
  split; [apply rules_exclusive|apply disagreements_step].
Qed.

(** ** The mapping only grows *)

Lemma stat_le_refl st : stat_le st st.
Proof. unfold stat_le. repeat split; intros; lia. Qed.

Lemma stat_le_trans st1 st2 st3 : stat_le st1 st2 -> stat_le st2 st3 -> stat_le st1 st3.
Proof.
  intros (Ht & Hd & Hv) (Ht' & Hd' & Hv'). repeat split; try lia.
  intros label. specialize (Hv label). specialize (Hv' label). lia.
Qed.

Lemma grows_refl s : grows s s.
Proof. intros k st H. eauto using stat_le_refl. Qed.

Lemma grows_trans s1 s2 s3 : grows s1 s2 -> grows s2 s3 -> grows s1 s3.
Proof.
  intros H12 H23 k st Hk.
  destruct (H12 k st Hk) as (st2 & Hk2 & Hle).
  destruct (H23 k st2 Hk2) as (st3 & Hk3 & Hle').
  eauto using stat_le_trans.
Qed.

Lemma stat_le_seen st : stat_le st (stat_seen st).
Proof.
  unfold stat_le, stat_seen, stat_total, stat_disagreements, stat_vote. simpl.
  repeat split; intros; lia.
Qed.

Lemma stat_le_tallied lcp lcn review cur st :
  votes st !! value review = Some cur ->
  stat_le st (stat_tallied lcp lcn review cur st).
Proof.
  intros Hcur.
  unfold stat_le, stat_tallied, stat_total, stat_disagreements, stat_vote. simpl.
  split; [lia|]. split.
  - destruct (rule_A lcn review), (rule_B lcp review); lia.
  - intros label. destruct (decide (value review = label)) as [<-|Hne].
    + rewrite lookup_insert_eq, Hcur. simpl. lia.
    + rewrite lookup_insert_ne by assumption. lia.
Qed.

Lemma grows_insert s k st' :
  (forall st, s !! k = Some st -> stat_le st st') ->
  grows s (<[k := st']> s).
Proof.
  intros H k' st Hk'. destruct (decide (k = k')) as [->|Hne].
  - rewrite lookup_insert_eq. eauto.
  - rewrite lookup_insert_ne by assumption. eauto using stat_le_refl.
Qed.

Lemma grows_tally_review lcp lcn ts review s :
  grows s (fst (tally_review lcp lcn ts review s)).
Proof.
  destruct (counted ts review) eqn:Hc.
  - rewrite tally_review_counted by assumption. cbv zeta.
    destruct (votes _ !! value review) as [cur|] eqn:Hcur; simpl;
      apply grows_insert; intros st Hst; rewrite Hst in *; simpl in *.
    + by apply stat_le_tallied.
    + apply stat_le_seen.
  - rewrite tally_review_skip by assumption. apply grows_refl.
Qed.

Lemma grows_for_each {A} (body : A -> M unit) (l : list A) s :
  (forall x s0, grows s0 (fst (body x s0))) ->
  grows s (fst (for_each body l s)).
Proof.
  intros Hbody. revert s. induction l as [|x l IH]; intros s; simpl.
  - apply grows_refl.
  - unfold bind. specialize (Hbody x s).
    destruct (body x s) as [s1 [[]|e]]; simpl in *; [|exact Hbody].
    eapply grows_trans; [exact Hbody|apply IH].
Qed.

Lemma grows_process_patchset proj ps ts s :
  grows s (fst (process_patchset proj ps ts s)).
Proof.
  unfold process_patchset.
  destruct (core_votes proj (approvals_of ps)) as [[lcp lcn]|e]; simpl.
  - apply grows_for_each. intros. apply grows_tally_review.
  - apply grows_refl.
Qed.

(** C10. Whatever [process_patchset] does, and also when it raises, a
    reviewer's entry present before the call is present after it, with a
    total, a [disagreements] and vote counts at least what they were; on
    a patchset without approvals, or with none, the mapping is
    unchanged. *)
Theorem process_patchset_monotone proj ps ts s k st :
  s !! k = Some st ->
  (exists st',
     fst (process_patchset proj ps ts s) !! k = Some st' /\
     stat_total st <= stat_total st' /\
     stat_disagreements st <= stat_disagreements st' /\
     (forall label, stat_vote st label <= stat_vote st' label)) /\
  process_patchset proj (Patchset None) ts s = (s, Ok tt) /\
  process_patchset proj (Patchset (Some [])) ts s = (s, Ok tt).
Proof.
  intros Hk. split; [|split; reflexivity].
  exact (grows_process_patchset proj ps ts s k st Hk).
Qed.

Lemma process_patchset_monotone_witness :
  (exists st',
     fst (process_patchset nova scenario1 0
            {["bob" := ReviewerStat fresh_votes None None]}) !! "bob" = Some st' /\
     stat_total (ReviewerStat fresh_votes None None) <= stat_total st' /\
     stat_disagreements (ReviewerStat fresh_votes None None)
       <= stat_disagreements st' /\
     (forall label, stat_vote (ReviewerStat fresh_votes None None) label
                    <= stat_vote st' label)) /\
  process_patchset nova (Patchset None) 0
    {["bob" := ReviewerStat fresh_votes None None]}
    = ({["bob" := ReviewerStat fresh_votes None None]}, Ok tt) /\
  process_patchset nova (Patchset (Some [])) 0
    {["bob" := ReviewerStat fresh_votes None None]}
    = ({["bob" := ReviewerStat fresh_votes None None]}, Ok tt).
Proof.
  apply (process_patchset_monotone nova scenario1 0
           {["bob" := ReviewerStat fresh_votes None None]} "bob"
           (ReviewerStat fresh_votes None None)).
  vm_compute. reflexivity.
Defined.

(** ** The stable descending sort *)

Lemma insert_desc_perm {A} (x : Z * A) l : insert_desc x l ≡ₚ x :: l.
Proof.
  induction l as [|y l IH]; simpl; [reflexivity|].
  destruct (fst x <? fst y); [|reflexivity].
  rewrite IH. apply Permutation_swap.
Qed.

Lemma sort_desc_perm {A} (l : list (Z * A)) : sort_desc l ≡ₚ l.
Proof.
  unfold sort_desc. induction l as [|x l IH]; simpl; [reflexivity|].
  by rewrite insert_desc_perm, IH.
Qed.

Lemma insert_desc_hd {A} (x y : Z * A) l :
  key_ge y x -> HdRel key_ge y l -> HdRel key_ge y (insert_desc x l).
Proof.
  intros Hyx Hhd. destruct l as [|z l]; simpl.
  - by constructor.
  - destruct (fst x <? fst z); constructor; [|assumption].
    by inversion Hhd.
Qed.

Lemma insert_desc_sorted {A} (x : Z * A) l :
  Sorted key_ge l -> Sorted key_ge (insert_desc x l).
Proof.
  induction 1 as [|y l Hs IH Hhd]; simpl.
  - repeat constructor.
  - destruct (Z.ltb_spec (fst x) (fst y)).
    + constructor; [exact IH|]. apply insert_desc_hd; [|assumption].
      unfold key_ge. lia.
    + constructor; [by constructor|]. constructor. unfold key_ge. lia.
Qed.

Lemma sort_desc_sorted {A} (l : list (Z * A)) : Sorted key_ge (sort_desc l).
Proof.
  unfold sort_desc. induction l as [|x l IH]; simpl.
  - constructor.
  - by apply insert_desc_sorted.
Qed.

Lemma Sorted_adjacent {A} (R : A -> A -> Prop) (l : list A) i a b :
  Sorted R l -> l !! i = Some a -> l !! S i = Some b -> R a b.
Proof.
  intros Hs. revert i. induction Hs as [|x l Hs IH Hhd]; intros i Ha Hb.
  - by rewrite lookup_nil in Ha.
  - destruct i as [|i]; simpl in *.
    + inversion Ha; subst x. destruct l as [|y l]; [discriminate|].
      simpl in Hb. inversion Hb; subst y. by inversion Hhd.
    + eauto.
Qed.

(** Equal totals keep the order they had before the sort. *)
Example sort_desc_ties :
  snd <$> sort_desc [(1, "a"); (3, "b"); (1, "c"); (3, "d"); (2, "e")]
  = ["b"; "d"; "e"; "a"; "c"].
Proof. reflexivity. Qed.

(** ** The ranked list *)

Lemma sort_keys_inv l keyed :
  sort_keys l = Ok keyed ->
  snd <$> keyed = l /\
  Forall (fun x => total (fst (snd x)) = Some (fst x)) keyed.
Proof.
  revert keyed. induction l as [|r l IH]; intros keyed H; simpl in H.
  - inversion H. split; constructor.
  - destruct (total (fst r)) as [t|] eqn:Ht; simpl in H; [|discriminate].
    destruct (sort_keys l) as [keyed'|e]; simpl in H; [|discriminate].
    inversion H; subst keyed. destruct (IH keyed' eq_refl) as [Hl Hf].
    split; [rewrite fmap_cons; simpl; by f_equal|]. by constructor.
Qed.


Lemma sort_by_total_inv l ranked :
  sort_by_total l = Ok ranked ->
  ranked ≡ₚ l /\
  exists keyed,
    ranked = snd <$> keyed /\ Sorted key_ge keyed /\
    Forall (fun x => total (fst (snd x)) = Some (fst x)) keyed.
Proof.
  unfold sort_by_total. intros H.
  destruct (sort_keys l) as [keyed|e] eqn:Hk; simpl in H; [|discriminate].
  inversion H; subst ranked. destruct (sort_keys_inv _ _ Hk) as [Hl Hf].
  split.
  - rewrite <- Hl. by rewrite sort_desc_perm.
  - exists (sort_desc keyed). split; [reflexivity|].
    split; [apply sort_desc_sorted|].
    by rewrite sort_desc_perm.
Qed.

(** ** The rows *)

Lemma make_row_inv projects k v r :
  make_row projects k v = Ok r ->
  row_name r = display_name projects v /\ total k = Some (row_total r).
Proof.
  unfold make_row, plus_minus_ratio, float_div. intros H.
  repeat match type of H with
  | context [rlookup ?o] => destruct o; simpl in H; try discriminate
  | context [Qeq_bool ?x ?y] => destruct (Qeq_bool x y); simpl in H;
                                try discriminate
  end.
  all: inversion H; subst r; simpl; auto.
Qed.

Lemma reviewer_rows_inv projects l rs tot :
  reviewer_rows projects l = Ok (rs, tot) ->
  row_name <$> rs = (fun kv => display_name projects (snd kv)) <$> l /\
  Forall2 (fun kv r => total (fst kv) = Some (row_total r)) l rs.
Proof.
  revert rs tot. induction l as [|kv l IH]; intros rs tot H; simpl in H.
  - inversion H. split; constructor.
  - destruct (make_row projects (fst kv) (snd kv)) as [r|e] eqn:Hr;
      simpl in H; [|discriminate].
    destruct (reviewer_rows projects l) as [[rs' tot']|e]; simpl in H;
      [|discriminate].
    inversion H; subst rs tot. destruct (IH rs' tot' eq_refl) as [Hn Hf].
    destruct (make_row_inv _ _ _ _ Hr) as [Hname Htot].
    split; [rewrite !fmap_cons; by f_equal|]. by constructor.
Qed.

Lemma build_report_inv projects items rep :
  build_report projects items = Ok rep ->
  exists ranked,
    sort_by_total (report_candidates items) = Ok ranked /\
    reviewer_rows projects ranked = Ok (rows rep, total_reviews rep) /\
    total_reviewers rep = length ranked.
Proof.
  unfold build_report. intros H.
  destruct (sort_by_total _) as [ranked|e]; simpl in H; [|discriminate].
  destruct (reviewer_rows projects ranked) as [[rs tot]|e] eqn:Hrows;
    simpl in H; [|discriminate].
  inversion H; subst rep. simpl. eauto.
Qed.

(** ** The automated accounts *)

Lemma report_candidates_elem items st k :
  (st, k) ∈ report_candidates items ->
  (k, st) ∈ items /\ lower k ∉ excluded_names.
Proof.
  unfold report_candidates. intros H.
  apply list_elem_of_fmap in H as ([k' st'] & Heq & Hin).
  simpl in Heq. inversion Heq; subst k' st'.
  apply list_elem_of_In, List.filter_In in Hin as [Hin Hd].
  apply list_elem_of_In in Hin. apply bool_decide_eq_true in Hd. auto.
Qed.

(** C7. In every report that is built, the rows are those of the ranked
    list, one each and in its order; the ranked list is a rearrangement
    of the entries whose lower-cased key is neither ["jenkins"] nor
    ["smokestack"], so no row and no unit of the reviewer count comes
    from such a key, whatever its totals. *)
Theorem excluded_accounts_not_reported projects items rep :
  build_report projects items = Ok rep ->
  (exists ranked,
    ranked ≡ₚ report_candidates items /\
    row_name <$> rows rep
      = (fun kv => display_name projects (snd kv)) <$> ranked /\
    total_reviewers rep = length ranked /\
    (forall st k, (st, k) ∈ ranked ->
       (k, st) ∈ items /\ lower k <> "jenkins" /\ lower k <> "smokestack")) /\
  total_reviewers rep =
    length (List.filter
              (fun kv => bool_decide (lower (fst kv) ∉ excluded_names)) items) /\
  report_candidates with_bots
    = [(ReviewerStat (<["1" := 1]> fresh_votes) (Some 0) (Some 1), "bob")].
Proof.
  intros H. destruct (build_report_inv _ _ _ H) as (ranked & Hsort & Hrows & Hlen).
  destruct (sort_by_total_inv _ _ Hsort) as [Hperm _].
  destruct (reviewer_rows_inv _ _ _ _ Hrows) as [Hnames _].
  split; [|split].
  - exists ranked. split; [assumption|]. split; [assumption|].
    split; [assumption|]. intros st k Hin. rewrite Hperm in Hin.
    apply report_candidates_elem in Hin as [Hin Hex].
    split; [assumption|].
    split; intros Heq; apply Hex; rewrite Heq; unfold excluded_names;
      repeat constructor.
  - rewrite Hlen, Hperm. unfold report_candidates. by rewrite length_fmap.
  - reflexivity.
Qed.

Lemma excluded_accounts_not_reported_witness :
  (exists ranked,
    ranked ≡ₚ report_candidates with_bots /\
    row_name <$> rows bots_report
      = (fun kv => display_name [nova] (snd kv)) <$> ranked /\
    total_reviewers bots_report = length ranked /\
    (forall st k, (st, k) ∈ ranked ->
       (k, st) ∈ with_bots /\ lower k <> "jenkins" /\ lower k <> "smokestack")) /\
  total_reviewers bots_report =
    length (List.filter
              (fun kv => bool_decide (lower (fst kv) ∉ excluded_names)) with_bots) /\
  report_candidates with_bots
    = [(ReviewerStat (<["1" := 1]> fresh_votes) (Some 0) (Some 1), "bob")].
Proof.
  apply (excluded_accounts_not_reported [nova] with_bots).
  vm_compute. reflexivity.
Defined.

(** ** The order of the rows *)

Lemma row_totals_are_keys (keyed : list (Z * (reviewer_stat * string))) rs :
  Forall (fun x => total (fst (snd x)) = Some (fst x)) keyed ->
  Forall2 (fun kv r => total (fst kv) = Some (row_total r)) (snd <$> keyed) rs ->
  row_total <$> rs = fst <$> keyed.
Proof.
  intros Hk. revert rs. induction Hk as [|x keyed Hx _ IH]; intros rs H2.
  - by inversion H2.
  - rewrite fmap_cons in H2. inversion H2 as [|? r ? rs' Hr H2']; subst.
    rewrite !fmap_cons. f_equal; [congruence|by apply IH].
Qed.

(** C8. In every report that is built, of two adjacent rows the earlier
    has a total at least that of the later. *)
Theorem rows_sorted_by_total projects items rep i r1 r2 :
  build_report projects items = Ok rep ->
  rows rep !! i = Some r1 ->
  rows rep !! S i = Some r2 ->
  row_total r2 <= row_total r1.
Proof.
  intros H H1 H2.
  destruct (build_report_inv _ _ _ H) as (ranked & Hsort & Hrows & _).
  destruct (sort_by_total_inv _ _ Hsort) as (_ & keyed & -> & Hsorted & Hkeys).
  destruct (reviewer_rows_inv _ _ _ _ Hrows) as [_ Hf2].
  pose proof (row_totals_are_keys _ _ Hkeys Hf2) as Heq.
  assert (Hi : forall j r, rows rep !! j = Some r ->
                 exists a, keyed !! j = Some a /\ fst a = row_total r).
  { intros j r Hj.
    assert (Hj' : (row_total <$> rows rep) !! j = Some (row_total r))
      by (by rewrite list_lookup_fmap, Hj).
    rewrite Heq, list_lookup_fmap in Hj'.
    destruct (keyed !! j) as [a|]; [|discriminate].
    simpl in Hj'. inversion Hj'. eauto. }
  destruct (Hi _ _ H1) as (a & Ha & <-).
  destruct (Hi _ _ H2) as (b & Hb & <-).
  exact (Sorted_adjacent key_ge keyed i a b Hsorted Ha Hb).
Qed.

Lemma rows_sorted_by_total_witness :
  exists r1 r2,
    rows three_report !! 0%nat = Some r1 /\
    rows three_report !! 1%nat = Some r2 /\
    row_total r1 = 3 /\ row_total r2 = 2 /\
    row_total r2 <= row_total r1.
Proof.
  eexists. eexists.
  split; [vm_compute; reflexivity|].
  split; [vm_compute; reflexivity|].
  split; [reflexivity|]. split; [reflexivity|].
  eapply (rows_sorted_by_total [nova] three_reviewers three_report 0%nat).
  - vm_compute. reflexivity.
  - vm_compute. reflexivity.
  - vm_compute. reflexivity.
Defined.

(** ** Every reviewer of the mapping has a counted vote *)

Lemma for_each_inv {A} (P : reviewers_map -> Prop) (body : A -> M unit) l s s' :
  (forall x s0 s1, P s0 -> body x s0 = (s1, Ok tt) -> P s1) ->
  P s -> for_each body l s = (s', Ok tt) -> P s'.
Proof.
  intros Hbody. revert s. induction l as [|x l IH]; intros s Hs Hrun; simpl in Hrun.
  - by inversion Hrun; subst.
  - unfold bind in Hrun. destruct (body x s) as [s1 [[]|e]] eqn:Hx.
    + eapply IH; [|exact Hrun]. eauto.
    + discriminate.
Qed.

Lemma votes_sum_ge st label :
  (forall l, 0 <= stat_vote st l) ->
  label ∈ vote_labels -> 1 <= stat_vote st label -> 1 <= votes_sum st.
Proof.
  intros Hnn Hl Hv. unfold votes_sum.
  pose proof (Hnn "2"). pose proof (Hnn "1").
  pose proof (Hnn "-2"). pose proof (Hnn "-1").
  unfold vote_labels in Hl. rewrite !elem_of_cons, elem_of_nil in Hl.
  destruct Hl as [->|[->|[->|[->|[]]]]]; lia.
Qed.

Lemma stat_vote_fresh label : stat_vote fresh_stat label = 0.
Proof.
  unfold stat_vote. simpl. rewrite fresh_votes_lookup. by case_bool_decide.
Qed.

Lemma voted_tallied lcp lcn review cur st :
  has_labels st -> only_labels st ->
  (forall l, 0 <= stat_vote st l) ->
  votes st !! value review = Some cur ->
  voted (stat_tallied lcp lcn review cur st).
Proof.
  intros Hhas Honly Hnn Hcur.
  assert (Hlab : value review ∈ vote_labels) by (apply Honly; eauto).
  assert (Hcur0 : 0 <= cur).
  { specialize (Hnn (value review)). unfold stat_vote in Hnn.
    by rewrite Hcur in Hnn. }
  assert (Hnn' : forall l, 0 <= stat_vote (stat_tallied lcp lcn review cur st) l).
  { intros l. specialize (Hnn l). unfold stat_vote in *. simpl.
    destruct (decide (value review = l)) as [<-|Hne].
    - rewrite lookup_insert_eq. simpl. lia.
    - by rewrite lookup_insert_ne. }
  split; [by apply has_labels_tallied|]. split; [|split; [|split; [|split]]].
  - intros l [x Hx]. simpl in Hx.
    destruct (decide (value review = l)) as [<-|Hne]; [assumption|].
    rewrite lookup_insert_ne in Hx by assumption. apply Honly. eauto.
  - simpl. eauto.
  - simpl. eauto.
  - exact Hnn'.
  - apply (votes_sum_ge _ (value review)); [exact Hnn'|exact Hlab|].
    unfold stat_vote. simpl. rewrite lookup_insert_eq. simpl. lia.
Qed.





(** ** The +/- ratio *)

Lemma Qeq_bool_inject_sum (p m : Z) :
  Qeq_bool (inject_Z p + inject_Z m) 0 = (p + m =? 0).
Proof.
  unfold Qeq_bool, Qplus, inject_Z. cbn [Qnum Qden].
  by rewrite !Z.mul_1_r.
Qed.

Lemma Qeq_bool_inject (p : Z) : Qeq_bool (inject_Z p) 0 = (p =? 0).
Proof.
  unfold Qeq_bool, inject_Z. cbn [Qnum Qden].
  by rewrite !Z.mul_1_r.
Qed.

Lemma plus_minus_ratio_cases (p m : Z) :
  plus_minus_ratio (inject_Z p) (inject_Z m) =
    if p + m =? 0 then Raise ZeroDivisionError
    else Ok (inject_Z p / (inject_Z p + inject_Z m) * 100)%Q.
Proof.
  unfold plus_minus_ratio, float_div. rewrite Qeq_bool_inject_sum.
  by destruct (p + m =? 0).
Qed.




(** ** No disagreement comes from an approval older than the cutoff *)

(** C2, as the claim has it, fails: there is no patchset in which an
    approval older than the cutoff makes any reviewer's [disagreements]
    larger than it is without that approval. *)
Lemma pre_cutoff_vote_causes_no_disagreement :
  ~ (exists proj (pre post : list approval) review ts s k,
       grantedOn review < ts /\
       disagreements_of
         (fst (process_patchset proj (Patchset (Some (pre ++ post))) ts s)) k
       < disagreements_of
           (fst (process_patchset proj
                   (Patchset (Some (pre ++ review :: post))) ts s)) k).
Proof.
  intros (proj & pre & post & review & ts & s & k & Hold & Hlt).
  destruct (core_vote_ok proj review) eqn:Hok.
  - rewrite process_patchset_drop in Hlt; auto using counted_false_old. lia.
  - pose proof (disagreements_process_patchset proj
                  (Patchset (Some (pre ++ post))) ts s k) as Hmono.
    unfold process_patchset at 2 in Hlt. unfold approvals_of in Hlt.
    simpl in Hlt. rewrite core_votes_closed, forallb_app in Hlt.
    simpl in Hlt. rewrite Hok, andb_false_r in Hlt. simpl in Hlt. lia.
Qed.

(** ** [round_to_day] *)

Lemma seconds_per_day : SECONDS_PER_DAY = 86400.
Proof. reflexivity. Qed.

(** X1. [round_to_day ts] is the greatest multiple of 86400 that is not
    above [ts], for negative timestamps too: it is a multiple of 86400,
    it is at most [ts], less than a day below it, and no multiple of
    86400 lies between it and [ts]. *)
Theorem round_to_day_floor ts :
  (exists d, round_to_day ts = d * 86400) /\
  round_to_day ts <= ts < round_to_day ts + 86400 /\
  (forall d, d * 86400 <= ts -> d * 86400 <= round_to_day ts).
Proof.
  unfold round_to_day. rewrite seconds_per_day.
  split; [eauto|]. split.
  - pose proof (Z.mul_div_le ts 86400). pose proof (Z.mul_succ_div_gt ts 86400).
    lia.
  - intros d Hd. apply Z.mul_le_mono_nonneg_r; [lia|].
    apply Z.div_le_lower_bound; lia.
Qed.

(** X2. Rounding to the day commutes with a shift by whole days, is
    idempotent and is monotone. *)
Theorem round_to_day_shift ts d :
  round_to_day (ts + d * 86400) = round_to_day ts + d * 86400 /\
  round_to_day (round_to_day ts) = round_to_day ts /\
  (forall ts', ts <= ts' -> round_to_day ts <= round_to_day ts').
Proof.
  unfold round_to_day. rewrite seconds_per_day. split; [|split].
  - rewrite Z.div_add by lia. lia.
  - rewrite Z.div_mul by lia. reflexivity.
  - intros ts' H. apply Z.mul_le_mono_nonneg_r; [lia|].
    apply Z.div_le_mono; lia.
Qed.

(** ** What [process_patchset] counts *)

Lemma count_of_cons f x l :
  count_of f (x :: l) = (if f x then 1 else 0) + count_of f l.
Proof.
  unfold count_of. simpl. destruct (f x); simpl length; lia.
Qed.

Lemma count_of_nonneg f l : 0 <= count_of f l.
Proof. unfold count_of. lia. Qed.

Lemma count_of_perm f l l' : l ≡ₚ l' -> count_of f l = count_of f l'.
Proof.
  intros H. unfold count_of. induction H; simpl.
  - reflexivity.
  - destruct (f x); simpl; lia.
  - destruct (f x), (f y); reflexivity.
  - lia.
Qed.

Lemma count_of_pos f l :
  0 < count_of f l <-> exists r, r ∈ l /\ f r = true.
Proof.
  induction l as [|x l IH].
  - split; [unfold count_of; simpl; lia|].
    intros (r & Hr & _). by apply elem_of_nil in Hr.
  - rewrite count_of_cons. pose proof (count_of_nonneg f l). split.
    + intros Hpos. destruct (f x) eqn:Hx.
      * exists x. split; [constructor|assumption].
      * destruct IH as [IH _]. destruct IH as (r & Hr & Hf); [lia|].
        exists r. split; [by constructor|assumption].
    + intros (r & Hr & Hf). apply elem_of_cons in Hr as [->|Hr].
      * rewrite Hf. lia.
      * assert (0 < count_of f l) by (apply IH; eauto).
        destruct (f x); lia.
Qed.

Lemma by_reviewer_false ts k review :
  counted ts review = false -> by_reviewer ts k review = false.
Proof. unfold by_reviewer. by intros ->. Qed.

Lemma by_reviewer_counted ts k review :
  counted ts review = true ->
  by_reviewer ts k review = bool_decide (reviewer_of review = k).
Proof. unfold by_reviewer. by intros ->. Qed.

Lemma tally_review_adds lcp lcn ts review s s' k :
  tally_review lcp lcn ts review s = (s', Ok tt) ->
  adds ts lcp lcn k review s s'.
Proof.
  intros Hrun. unfold adds. destruct (counted ts review) eqn:Hc.
  - rewrite tally_review_counted in Hrun by assumption. cbv zeta in Hrun.
    destruct (votes _ !! value review) as [cur|] eqn:Hcur; [|discriminate].
    inversion Hrun; subst s'. clear Hrun.
    rewrite by_reviewer_counted by assumption.
    pose proof (rules_exclusive lcp lcn review) as Hex.
    destruct (decide (reviewer_of review = k)) as [<-|Hne].
    + rewrite bool_decide_eq_true_2 by reflexivity.
      unfold total_of at 1, disagreements_of at 1.
      rewrite !lookup_insert_eq. cbn [from_option].
      unfold stat_total, stat_disagreements, stat_tallied.
      cbn [total disagreements default from_option].
      fold (default 0 (total (default fresh_stat (s !! reviewer_of review)))).
      fold (default 0 (disagreements (default fresh_stat (s !! reviewer_of review)))).
      rewrite total_of_default, disagreements_of_default.
      split; [reflexivity|]. split; [|split].
      * cbn [andb]. unfold id.
        destruct (rule_A lcn review), (rule_B lcp review);
          cbn [andb orb] in *; try discriminate; lia.
      * intros label. unfold vote_of at 1. rewrite lookup_insert_eq.
        simpl. unfold stat_vote. simpl.
        rewrite <- vote_of_default.
        destruct (decide (value review = label)) as [<-|Hl].
        -- rewrite lookup_insert_eq, Hcur.
           rewrite bool_decide_eq_true_2 by reflexivity. reflexivity.
        -- rewrite lookup_insert_ne by assumption.
           rewrite bool_decide_eq_false_2 by assumption. lia.
      * split; eauto.
    + rewrite bool_decide_eq_false_2 by assumption. cbn [andb].
      unfold total_of, disagreements_of, vote_of.
      rewrite !lookup_insert_ne by assumption.
      split; [lia|]. split; [lia|]. split; [intros; lia|].
      split; [auto|]. intros [H|H]; [assumption|discriminate].
  - rewrite tally_review_skip in Hrun by assumption. inversion Hrun; subst s'.
    rewrite by_reviewer_false by assumption. cbn [andb].
    split; [lia|]. split; [lia|]. split; [intros; lia|].
    split; [auto|]. intros [H|H]; [assumption|discriminate].
Qed.

Lemma tally_counts lcp lcn ts l s s' k :
  tally lcp lcn ts l s = (s', Ok tt) ->
  total_of s' k = total_of s k + count_of (by_reviewer ts k) l /\
  disagreements_of s' k =
    disagreements_of s k
    + count_of (fun r => by_reviewer ts k r
                         && (rule_A lcn r || rule_B lcp r)) l /\
  (forall label,
     vote_of s' k label =
       vote_of s k label
       + count_of (fun r => by_reviewer ts k r
                            && bool_decide (value r = label)) l) /\
  (is_Some (s' !! k) <->
   is_Some (s !! k) \/ 0 < count_of (by_reviewer ts k) l).
Proof.
  unfold tally. revert s. induction l as [|r l IH]; intros s Hrun; simpl in Hrun.
  - inversion Hrun; subst s'. unfold count_of. simpl.
    split; [lia|]. split; [lia|]. split; [intros; lia|].
    split; [auto|]. intros [H|H]; [assumption|lia].
  - unfold bind in Hrun.
    destruct (tally_review lcp lcn ts r s) as [s1 [[]|e]] eqn:Hstep;
      [|discriminate].
    destruct (tally_review_adds _ _ _ _ _ _ k Hstep) as (Ht & Hd & Hv & Hdom).
    destruct (IH s1 Hrun) as (Ht' & Hd' & Hv' & Hdom').
    rewrite !count_of_cons. split; [lia|]. split; [lia|]. split.
    + intros label. rewrite count_of_cons, Hv', Hv. lia.
    + rewrite Hdom', Hdom. pose proof (count_of_nonneg (by_reviewer ts k) l).
      destruct (by_reviewer ts k r) eqn:Hb.
      * split; [intros _; right; lia|intros _; left; right; reflexivity].
      * split.
        -- intros [[H0|H0]|H0];
             [left; assumption|discriminate|right; lia].
        -- intros [H0|H0]; [left; left; exact H0|right; lia].
Qed.

Lemma process_patchset_ok_inv proj ps ts s s' :
  process_patchset proj ps ts s = (s', Ok tt) ->
  forallb (core_vote_ok proj) (approvals_of ps) = true /\
  tally (latest_core_vote_spec proj true (approvals_of ps))
        (latest_core_vote_spec proj false (approvals_of ps))
        ts (approvals_of ps) s = (s', Ok tt).
Proof.
  unfold process_patchset. rewrite core_votes_closed.
  destruct (forallb _ _); [auto|discriminate].
Qed.

(** X3. When [process_patchset] returns, each reviewer's total has
    grown by the number of counted approvals of that reviewer in the
    patchset, each vote count by the number of those with that value,
    the disagreements by the number of those that pass one of the two
    disagreement tests against the latest core votes of the whole
    patchset, and the reviewers with an entry are those that had one and
    those with a counted approval. *)
Theorem process_patchset_counts proj ps ts s s' k :
  process_patchset proj ps ts s = (s', Ok tt) ->
  total_of s' k = total_of s k + count_of (by_reviewer ts k) (approvals_of ps) /\
  disagreements_of s' k =
    disagreements_of s k
    + count_of
        (fun r => by_reviewer ts k r
           && (rule_A (latest_core_vote_spec proj false (approvals_of ps)) r
               || rule_B (latest_core_vote_spec proj true (approvals_of ps)) r))
        (approvals_of ps) /\
  (forall label,
     vote_of s' k label =
       vote_of s k label
       + count_of (fun r => by_reviewer ts k r
                            && bool_decide (value r = label))
           (approvals_of ps)) /\
  (is_Some (s' !! k) <->
   is_Some (s !! k) \/ 0 < count_of (by_reviewer ts k) (approvals_of ps)).
Proof.
  intros Hrun. apply process_patchset_ok_inv in Hrun as [_ Hrun].
  exact (tally_counts _ _ _ _ _ _ k Hrun).
Qed.

Lemma process_patchset_counts_witness :
  let s' := fst (process_patchset nova scenario1 0 ∅) in
  let ps := scenario1 in
  total_of s' "bob" = total_of ∅ "bob" + count_of (by_reviewer 0 "bob") (approvals_of ps) /\
  disagreements_of s' "bob" =
    disagreements_of ∅ "bob"
    + count_of
        (fun r => by_reviewer 0 "bob" r
           && (rule_A (latest_core_vote_spec nova false (approvals_of ps)) r
               || rule_B (latest_core_vote_spec nova true (approvals_of ps)) r))
        (approvals_of ps) /\
  (forall label,
     vote_of s' "bob" label =
       vote_of ∅ "bob" label
       + count_of (fun r => by_reviewer 0 "bob" r
                            && bool_decide (value r = label))
           (approvals_of ps)) /\
  (is_Some (s' !! "bob") <->
   is_Some ((∅ : reviewers_map) !! "bob")
   \/ 0 < count_of (by_reviewer 0 "bob") (approvals_of ps)).
Proof.
  apply (process_patchset_counts nova scenario1 0 ∅
           (fst (process_patchset nova scenario1 0 ∅)) "bob").
  vm_compute. reflexivity.
Defined.

(** ** When [process_patchset] raises *)

Lemma counted_type ts review : counted ts review = true -> type review = "CRVW".
Proof.
  unfold counted. intros H. apply andb_true_iff in H as [_ H].
  by apply bool_decide_eq_true in H.
Qed.

Lemma tally_returns lcp lcn ts l s :
  wf_reviewers s ->
  Forall (fun r => counted ts r = true -> value r ∈ vote_labels) l ->
  exists s', tally lcp lcn ts l s = (s', Ok tt) /\ wf_reviewers s'.
Proof.
  unfold tally. intros Hwf Hall. revert s Hwf.
  induction Hall as [|r l Hr _ IH]; intros s Hwf; simpl.
  - eauto.
  - unfold bind. destruct (counted ts r) eqn:Hc.
    + destruct (tally_review_ok lcp lcn ts r s Hwf Hc (Hr eq_refl))
        as (cur & _ & Hstep).
      rewrite Hstep. apply IH. eapply wf_tally_review; eauto.
    + rewrite tally_review_skip by assumption. by apply IH.
Qed.

Lemma tally_ok_labels lcp lcn ts l s s' :
  strict_reviewers s ->
  tally lcp lcn ts l s = (s', Ok tt) ->
  Forall (fun r => counted ts r = true -> value r ∈ vote_labels) l.
Proof.
  unfold tally. revert s. induction l as [|r l IH]; intros s Hs Hrun.
  - constructor.
  - simpl in Hrun. unfold bind in Hrun.
    pose proof (strict_tally_review lcp lcn ts r s Hs) as Hs1.
    destruct (tally_review lcp lcn ts r s) as [s1 [[]|e]] eqn:Hstep;
      [|discriminate].
    constructor; [|by apply (IH s1)].
    intros Hc. rewrite tally_review_counted in Hstep by assumption.
    cbv zeta in Hstep.
    destruct (votes _ !! value r) as [cur|] eqn:Hcur; [|discriminate].
    apply (only_labels_default s (reviewer_of r) Hs). rewrite Hcur. eauto.
Qed.

Lemma tally_raises lcp lcn ts l s s' e :
  tally lcp lcn ts l s = (s', Raise e) -> e = KeyError.
Proof.
  unfold tally. revert s. induction l as [|r l IH]; intros s Hrun; simpl in Hrun.
  - discriminate.
  - unfold bind in Hrun.
    destruct (tally_review lcp lcn ts r s) as [s1 [[]|e1]] eqn:Hstep.
    + by apply (IH s1).
    + inversion Hrun; subst e1 s1. clear Hrun.
      destruct (counted ts r) eqn:Hc.
      * rewrite tally_review_counted in Hstep by assumption. cbv zeta in Hstep.
        destruct (votes _ !! value r); by inversion Hstep.
      * rewrite tally_review_skip in Hstep by assumption. discriminate.
Qed.

(** X4. On a mapping whose entries have exactly the four vote labels,
    [process_patchset] returns without an exception exactly when [int]
    accepts the value of every code review of a core-team member and
    every counted code review has one of the four labels as value. *)
Theorem process_patchset_returns_iff proj ps ts s :
  wf_reviewers s ->
  strict_reviewers s ->
  snd (process_patchset proj ps ts s) = Ok tt <->
  forallb (core_vote_ok proj) (approvals_of ps) = true /\
  Forall (fun r => counted ts r = true -> value r ∈ vote_labels)
         (approvals_of ps).
Proof.
  intros Hwf Hs. split.
  - intros Hret.
    destruct (process_patchset proj ps ts s) as [s' [[]|e]] eqn:Hrun;
      [|discriminate].
    apply process_patchset_ok_inv in Hrun as [Hok Hrun].
    split; [exact Hok|]. eapply tally_ok_labels; eauto.
  - intros [Hok Hall]. unfold process_patchset.
    rewrite core_votes_closed, Hok.
    destruct (tally_returns (latest_core_vote_spec proj true (approvals_of ps))
                (latest_core_vote_spec proj false (approvals_of ps))
                ts (approvals_of ps) s Hwf Hall) as (s' & Hrun & _).
    by rewrite Hrun.
Qed.

Lemma process_patchset_returns_iff_witness :
  snd (process_patchset nova scenario1 0 ∅) = Ok tt <->
  forallb (core_vote_ok nova) (approvals_of scenario1) = true /\
  Forall (fun r => counted 0 r = true -> value r ∈ vote_labels)
         (approvals_of scenario1).
Proof.
  apply (process_patchset_returns_iff nova scenario1 0 ∅).
  - exact wf_empty.
  - exact strict_empty.
Defined.

(** X5. An exception of [process_patchset] is a [ValueError] of the
    first loop, raised before anything is written (the mapping is as it
    was, whatever comes before the offending approval), or a [KeyError]
    of the second loop, after the first has passed. *)
Theorem process_patchset_raises proj ps ts s s' e :
  process_patchset proj ps ts s = (s', Raise e) ->
  (e = ValueError /\ s' = s /\
   forallb (core_vote_ok proj) (approvals_of ps) = false) \/
  (e = KeyError /\ forallb (core_vote_ok proj) (approvals_of ps) = true).
Proof.
  unfold process_patchset. rewrite core_votes_closed.
  destruct (forallb _ _).
  - intros Hrun. right. split; [|reflexivity]. by eapply tally_raises.
  - intros Hrun. inversion Hrun. left. auto.
Qed.

Lemma process_patchset_raises_witness :
  (ValueError = ValueError /\
   {["carol" := fresh_stat]} = ({["carol" := fresh_stat]} : reviewers_map) /\
   forallb (core_vote_ok nova)
     (approvals_of (Patchset (Some [crvw "bob" "2" 50; crvw "alice" "x" 60])))
   = false) \/
  (ValueError = KeyError /\
   forallb (core_vote_ok nova)
     (approvals_of (Patchset (Some [crvw "bob" "2" 50; crvw "alice" "x" 60])))
   = true).
Proof.
  apply (process_patchset_raises nova
           (Patchset (Some [crvw "bob" "2" 50; crvw "alice" "x" 60])) 0
           {["carol" := fresh_stat]} {["carol" := fresh_stat]} ValueError).
  vm_compute. reflexivity.
Defined.

(** ** The order of the approvals *)

Lemma count_of_le f g l :
  (forall x, f x = true -> g x = true) -> count_of f l <= count_of g l.
Proof.
  intros H. induction l as [|x l IH].
  - unfold count_of. simpl. lia.
  - rewrite !count_of_cons. specialize (H x).
    destruct (f x), (g x); try lia; discriminate (H eq_refl).
Qed.

Lemma count_of_refine_zero f g l :
  (forall x, f x = true -> g x = true) -> count_of g l <= 0 -> count_of f l = 0.
Proof.
  intros H Hg. pose proof (count_of_le f g l H).
  pose proof (count_of_nonneg f l). lia.
Qed.

Lemma settled_unique ts lcp lcn k l o0 o1 o2 :
  settled ts lcp lcn k l o0 o1 -> settled ts lcp lcn k l o0 o2 -> o1 = o2.
Proof.
  unfold settled. destruct (0 <? count_of (by_reviewer ts k) l).
  - intros (st1 & -> & Ht1 & Hd1 & Hv1) (st2 & -> & Ht2 & Hd2 & Hv2).
    f_equal. destruct st1 as [v1 d1 t1], st2 as [v2 d2 t2]. simpl in *.
    f_equal; [|congruence|congruence].
    apply map_eq. intros label. by rewrite Hv1, Hv2.
  - congruence.
Qed.

Lemma settled_perm ts lcp lcn k l l' o0 o :
  l ≡ₚ l' -> settled ts lcp lcn k l o0 o -> settled ts lcp lcn k l' o0 o.
Proof.
  intros Hp. unfold settled.
  rewrite (count_of_perm (by_reviewer ts k) l l' Hp).
  destruct (0 <? count_of (by_reviewer ts k) l'); [|auto].
  intros (st' & Ho & Ht & Hd & Hv). exists st'.
  split; [exact Ho|]. split; [exact Ht|]. split.
  - rewrite Hd. f_equal. f_equal. by apply count_of_perm.
  - intros label. rewrite Hv.
    by rewrite (count_of_perm
                  (fun r => by_reviewer ts k r && bool_decide (value r = label))
                  l l' Hp).
Qed.

Lemma tally_review_lookup_other lcp lcn ts review s s' k out :
  tally_review lcp lcn ts review s = (s', out) ->
  by_reviewer ts k review = false ->
  s' !! k = s !! k.
Proof.
  intros Hrun Hb. destruct (counted ts review) eqn:Hc.
  - rewrite by_reviewer_counted in Hb by assumption.
    apply bool_decide_eq_false in Hb.
    rewrite tally_review_counted in Hrun by assumption. cbv zeta in Hrun.
    destruct (votes _ !! value review); inversion Hrun; subst;
      by rewrite lookup_insert_ne.
  - rewrite tally_review_skip in Hrun by assumption. by inversion Hrun.
Qed.

Lemma reading_default (f : reviewer_stat -> Z) (o0 : option reviewer_stat) :
  f fresh_stat = 0 -> from_option f 0 o0 = f (default fresh_stat o0).
Proof. intros H. destruct o0; simpl; [reflexivity|by rewrite H]. Qed.

Lemma settled_cons_other ts lcp lcn k r l o0 o :
  by_reviewer ts k r = false ->
  settled ts lcp lcn k l o0 o -> settled ts lcp lcn k (r :: l) o0 o.
Proof.
  intros Hb. unfold settled. rewrite !count_of_cons, Hb. cbn [andb].
  rewrite Z.add_0_l.
  destruct (0 <? count_of (by_reviewer ts k) l); [|auto].
  intros (st' & Ho & Ht & Hd & Hv). exists st'.
  split; [exact Ho|]. split; [exact Ht|]. split; [exact Hd|].
  intros label. rewrite count_of_cons, Hb. cbn [andb]. rewrite Z.add_0_l.
  apply Hv.
Qed.

Lemma settled_cons_own ts lcp lcn k r l o0 o cur :
  by_reviewer ts k r = true ->
  votes (default fresh_stat o0) !! value r = Some cur ->
  settled ts lcp lcn k l
    (Some (stat_tallied lcp lcn r cur (default fresh_stat o0))) o ->
  settled ts lcp lcn k (r :: l) o0 o.
Proof.
  intros Hb Hcur. unfold settled. rewrite !count_of_cons, Hb. cbn [andb].
  set (st0 := default fresh_stat o0) in *.
  set (C := count_of (by_reviewer ts k) l).
  set (D := count_of (fun r0 => by_reviewer ts k r0
                                && (rule_A lcn r0 || rule_B lcp r0)) l).
  assert (HC : 0 <= C) by apply count_of_nonneg.
  assert (HD : 0 <= D) by apply count_of_nonneg.
  assert (Htot : from_option stat_total 0 o0 = default 0 (total st0))
    by (apply (reading_default stat_total); reflexivity).
  assert (Hdis : from_option stat_disagreements 0 o0
                 = default 0 (disagreements st0))
    by (apply (reading_default stat_disagreements); reflexivity).
  assert (Hvote : forall label,
            from_option (fun st => stat_vote st label) 0 o0
            = default 0 (votes st0 !! label)).
  { intros label. apply (reading_default (fun st => stat_vote st label)).
    apply stat_vote_fresh. }
  assert (Hrules : (if rule_A lcn r then 1 else 0) + (if rule_B lcp r then 1 else 0)
                   = if rule_A lcn r || rule_B lcp r then 1 else 0).
  { pose proof (rules_exclusive lcp lcn r) as Hex.
    destruct (rule_A lcn r), (rule_B lcp r); cbn [andb orb] in *;
      try discriminate; reflexivity. }
  assert (Hvotes1 : forall label,
            votes (stat_tallied lcp lcn r cur st0) !! label
            = if bool_decide (value r = label) then Some (cur + 1)
              else votes st0 !! label).
  { intros label. unfold stat_tallied. cbn [votes]. case_bool_decide.
    - subst label. apply lookup_insert_eq.
    - by apply lookup_insert_ne. }
  replace (0 <? 1 + C) with true by (symmetry; apply Z.ltb_lt; lia).
  destruct (Z.ltb_spec 0 C) as [Hpos|Hzero].
  - intros (st' & Ho & Ht & Hd & Hv). exists st'. split; [exact Ho|].
    cbn [from_option] in Ht, Hd. split; [|split].
    + rewrite Ht, Htot. unfold stat_total, stat_tallied. cbn [total default from_option].
      f_equal. unfold id. fold C. lia.
    + rewrite Hd, Hdis. unfold stat_disagreements, stat_tallied.
      cbn [disagreements default from_option]. f_equal. unfold id. fold D. lia.
    + intros label. rewrite count_of_cons, Hb. cbn [andb].
      specialize (Hv label). cbn [from_option default] in Hv. unfold id in Hv.
      unfold stat_vote in Hv. rewrite Hvotes1 in Hv. rewrite Hvote.
      set (V := count_of (fun r0 => by_reviewer ts k r0
                                    && bool_decide (value r0 = label)) l) in *.
      assert (HV : 0 <= V) by apply count_of_nonneg.
      rewrite Hv. case_bool_decide as Hl.
      * subst label. rewrite Hcur. cbn [default from_option]. unfold id.
        replace (0 <? 1 + V) with true by (symmetry; apply Z.ltb_lt; lia).
        destruct (Z.ltb_spec 0 V); f_equal; lia.
      * rewrite Z.add_0_l. destruct (0 <? V); reflexivity.
  - intros ->. exists (stat_tallied lcp lcn r cur st0). split; [reflexivity|].
    assert (C = 0) by lia.
    assert (D = 0).
    { apply (count_of_refine_zero _ (by_reviewer ts k)); [|fold C; lia].
      intros x Hx. by apply andb_true_iff in Hx as [? _]. }
    split; [|split].
    + rewrite Htot. unfold stat_tallied. cbn [total]. f_equal. fold C. lia.
    + rewrite Hdis. unfold stat_tallied. cbn [disagreements]. f_equal.
      fold D. lia.
    + intros label. rewrite count_of_cons, Hb. cbn [andb].
      rewrite Hvotes1, Hvote.
      assert (HV : count_of (fun r0 => by_reviewer ts k r0
                                       && bool_decide (value r0 = label)) l = 0).
      { apply (count_of_refine_zero _ (by_reviewer ts k)); [|fold C; lia].
        intros x Hx. by apply andb_true_iff in Hx as [? _]. }
      rewrite HV. case_bool_decide as Hl.
      * subst label. rewrite Hcur. cbn [default from_option]. reflexivity.
      * reflexivity.
Qed.

Lemma tally_settled lcp lcn ts l s s' k :
  tally lcp lcn ts l s = (s', Ok tt) ->
  settled ts lcp lcn k l (s !! k) (s' !! k).
Proof.
  unfold tally. revert s. induction l as [|r l IH]; intros s Hrun; simpl in Hrun.
  - inversion Hrun; subst s'. unfold settled, count_of. simpl. reflexivity.
  - unfold bind in Hrun.
    destruct (tally_review lcp lcn ts r s) as [s1 [[]|e]] eqn:Hstep;
      [|discriminate].
    specialize (IH s1 Hrun).
    destruct (by_reviewer ts k r) eqn:Hb.
    + unfold by_reviewer in Hb. apply andb_true_iff in Hb as [Hc Hk].
      apply bool_decide_eq_true in Hk.
      rewrite tally_review_counted in Hstep by assumption. cbv zeta in Hstep.
      rewrite Hk in Hstep.
      destruct (votes _ !! value r) as [cur|] eqn:Hcur; [|discriminate].
      inversion Hstep; subst s1. rewrite lookup_insert_eq in IH.
      eapply settled_cons_own; [|exact Hcur|exact IH].
      unfold by_reviewer. rewrite Hc. cbn [andb].
      by apply bool_decide_eq_true_2.
    + rewrite (tally_review_lookup_other _ _ _ _ _ _ k _ Hstep Hb) in IH.
      by apply settled_cons_other.
Qed.

Lemma latest_core_vote_spec_perm proj b l l' :
  l ≡ₚ l' -> latest_core_vote_spec proj b l = latest_core_vote_spec proj b l'.
Proof.
  induction 1 as [|x l l' _ IH|x y l|l1 l2 l3 _ IH1 _ IH2].
  - reflexivity.
  - rewrite !latest_core_vote_spec_cons, IH. reflexivity.
  - rewrite !latest_core_vote_spec_cons.
    destruct (is_core_vote proj b x), (is_core_vote proj b y); lia.
  - congruence.
Qed.

Lemma forallb_perm {A} (f : A -> bool) l l' :
  l ≡ₚ l' -> forallb f l = forallb f l'.
Proof.
  induction 1 as [|x l l' _ IH|x y l|l1 l2 l3 _ IH1 _ IH2]; simpl.
  - reflexivity.
  - by rewrite IH.
  - destruct (f x), (f y); reflexivity.
  - congruence.
Qed.

Lemma process_patchset_perm_eq proj (l l' : list approval) ts s s1 s2 :
  l ≡ₚ l' ->
  process_patchset proj (Patchset (Some l)) ts s = (s1, Ok tt) ->
  process_patchset proj (Patchset (Some l')) ts s = (s2, Ok tt) ->
  s1 = s2.
Proof.
  intros Hp H1 H2.
  apply process_patchset_ok_inv in H1 as [_ H1].
  apply process_patchset_ok_inv in H2 as [_ H2].
  unfold approvals_of in H1, H2. cbn [approvals default from_option] in H1, H2.
  unfold id in H1, H2.
  rewrite <- !(latest_core_vote_spec_perm proj _ l l' Hp) in H2.
  apply map_eq. intros k.
  eapply settled_unique.
  - eapply tally_settled. exact H1.
  - eapply settled_perm; [symmetry; exact Hp|].
    eapply tally_settled. exact H2.
Qed.

Lemma process_patchset_perm_ok proj (l l' : list approval) ts s s' :
  wf_reviewers s ->
  strict_reviewers s ->
  l ≡ₚ l' ->
  process_patchset proj (Patchset (Some l)) ts s = (s', Ok tt) ->
  process_patchset proj (Patchset (Some l')) ts s = (s', Ok tt).
Proof.
  intros Hwf Hs Hp Hrun.
  pose proof Hrun as Hrun0.
  apply process_patchset_ok_inv in Hrun as [Hok Htally].
  unfold approvals_of in Hok, Htally.
  cbn [approvals default from_option] in Hok, Htally. unfold id in Hok, Htally.
  pose proof (tally_ok_labels _ _ _ _ _ _ Hs Htally) as Hlab.
  rewrite Hp in Hlab.
  destruct (tally_returns (latest_core_vote_spec proj true l')
              (latest_core_vote_spec proj false l') ts l' s Hwf Hlab)
    as (s2 & Hrun2 & _).
  assert (H2 : process_patchset proj (Patchset (Some l')) ts s = (s2, Ok tt)).
  { unfold process_patchset, approvals_of.
    cbn [approvals default from_option]. unfold id.
    rewrite core_votes_closed, <- (forallb_perm _ l l' Hp), Hok. exact Hrun2. }
  rewrite H2. f_equal. symmetry.
  eapply process_patchset_perm_eq; eauto.
Qed.

(** X6. The order of a patchset's approvals does not matter: from a
    mapping whose entries have exactly the four vote labels,
    [process_patchset] returns on a patchset exactly when it returns on
    the same approvals in any other order, and then with the same
    mapping. *)
Theorem process_patchset_order proj (l l' : list approval) ts s :
  wf_reviewers s ->
  strict_reviewers s ->
  l ≡ₚ l' ->
  (snd (process_patchset proj (Patchset (Some l)) ts s) = Ok tt <->
   snd (process_patchset proj (Patchset (Some l')) ts s) = Ok tt) /\
  (forall s',
     process_patchset proj (Patchset (Some l)) ts s = (s', Ok tt) ->
     process_patchset proj (Patchset (Some l')) ts s = (s', Ok tt)).
Proof.
  intros Hwf Hs Hp. split.
  - split; intros Hret.
    + destruct (process_patchset proj (Patchset (Some l)) ts s)
        as [s' [[]|e]] eqn:Hrun; [|discriminate].
      by rewrite (process_patchset_perm_ok proj l l' ts s s' Hwf Hs Hp Hrun).
    + destruct (process_patchset proj (Patchset (Some l')) ts s)
        as [s' [[]|e]] eqn:Hrun; [|discriminate].
      symmetry in Hp.
      by rewrite (process_patchset_perm_ok proj l' l ts s s' Hwf Hs Hp Hrun).
  - intros s'. by apply process_patchset_perm_ok.
Qed.

Lemma process_patchset_order_witness :
  (snd (process_patchset nova
          (Patchset (Some [crvw "alice" "-2" 100; crvw "bob" "2" 50])) 0 ∅)
   = Ok tt <->
   snd (process_patchset nova
          (Patchset (Some [crvw "bob" "2" 50; crvw "alice" "-2" 100])) 0 ∅)
   = Ok tt) /\
  (forall s',
     process_patchset nova
       (Patchset (Some [crvw "alice" "-2" 100; crvw "bob" "2" 50])) 0 ∅
     = (s', Ok tt) ->
     process_patchset nova
       (Patchset (Some [crvw "bob" "2" 50; crvw "alice" "-2" 100])) 0 ∅
     = (s', Ok tt)).
Proof.
  apply (process_patchset_order nova
           [crvw "alice" "-2" 100; crvw "bob" "2" 50]
           [crvw "bob" "2" 50; crvw "alice" "-2" 100] 0 ∅).
  - exact wf_empty.
  - exact strict_empty.
  - apply Permutation_swap.
Defined.

(** ** Disagreement rule B *)

Lemma label_neg_not_pos (v : string) : v ∈ ["-1"; "-2"] -> v ∉ ["1"; "2"].
Proof.
  rewrite !elem_of_cons, !elem_of_nil.
  intros [->|[->|[]]] [H|[H|[]]]; discriminate.
Qed.

(** X7. The second disagreement test, as the first: in a patchset whose
    first loop gives [latest_core_pos_vote], that value is the maximum
    [grantedOn] over the core-team code reviews of positive value (0 if
    none), and a counted code review of value -1 or -2 is tallied with
    its reviewer's [disagreements] incremented exactly when its
    [grantedOn] is strictly below that value. *)
Theorem rule_B_exact proj ps ts (pre post : list approval) review lcp lcn s s1 :
  approvals_of ps = pre ++ review :: post ->
  core_votes proj (approvals_of ps) = Ok (lcp, lcn) ->
  counted ts review = true ->
  value review ∈ ["-1"; "-2"] ->
  wf_reviewers s ->
  tally lcp lcn ts pre s = (s1, Ok tt) ->
  lcp = latest_core_vote_spec proj true (approvals_of ps) /\
  exists s2,
    tally_review lcp lcn ts review s1 = (s2, Ok tt) /\
    disagreements_of s2 (reviewer_of review) =
      disagreements_of s1 (reviewer_of review)
      + (if grantedOn review <? lcp then 1 else 0) /\
    process_patchset proj ps ts s = tally lcp lcn ts post s2.
Proof.
  intros Happ Hcore Hc Hv Hwf Hpre. split.
  - rewrite core_votes_closed in Hcore.
    destruct (forallb _ _); [|discriminate]. by inversion Hcore.
  - assert (Hwf1 : wf_reviewers s1) by (eapply wf_tally; eauto).
    assert (Hv' : value review ∈ vote_labels) by auto using label_neg_is_label.
    destruct (tally_review_ok lcp lcn ts review s1 Hwf1 Hc Hv')
      as (cur & Hcur & Hstep).
    eexists. split; [exact Hstep|]. split.
    + unfold disagreements_of at 1. rewrite lookup_insert_eq. simpl.
      unfold stat_disagreements. simpl. rewrite disagreements_of_default.
      unfold rule_A, rule_B.
      rewrite (bool_decide_eq_true_2 _ Hv).
      rewrite (bool_decide_eq_false_2 (value review ∈ ["1"; "2"]))
        by auto using label_neg_not_pos.
      simpl. lia.
    + rewrite (process_patchset_unfold _ _ _ _ _ _ Hcore), Happ.
      eapply tally_split; eauto.
Qed.

Lemma rule_B_exact_witness :
  50 = latest_core_vote_spec nova true
         (approvals_of (Patchset (Some [crvw "bob" "-1" 20; crvw "alice" "2" 50]))) /\
  exists s2,
    tally_review 50 0 0 (crvw "bob" "-1" 20) ∅ = (s2, Ok tt) /\
    disagreements_of s2 (reviewer_of (crvw "bob" "-1" 20)) =
      disagreements_of ∅ (reviewer_of (crvw "bob" "-1" 20))
      + (if grantedOn (crvw "bob" "-1" 20) <? 50 then 1 else 0) /\
    process_patchset nova
      (Patchset (Some [crvw "bob" "-1" 20; crvw "alice" "2" 50])) 0 ∅
    = tally 50 0 0 [crvw "alice" "2" 50] s2.
Proof.
  apply (rule_B_exact nova
           (Patchset (Some [crvw "bob" "-1" 20; crvw "alice" "2" 50])) 0
           [] [crvw "alice" "2" 50] (crvw "bob" "-1" 20) 50 0 ∅ ∅).
  - reflexivity.
  - reflexivity.
  - reflexivity.
  - repeat constructor.
  - exact wf_empty.
  - reflexivity.
Defined.

(** ** A reviewer outside the core team *)

Lemma is_core_vote_outside proj b review :
  reviewer_of review ∉ core_team proj -> is_core_vote proj b review = false.
Proof.
  intros H. unfold is_core_vote. rewrite (bool_decide_eq_false_2 _ H).
  by rewrite andb_false_r.
Qed.

(** X8. An approval of a reviewer who is not in the core team changes
    that reviewer's entry only: from a mapping whose entries have
    exactly the four vote labels, if [process_patchset] returns on a
    patchset, it returns on the patchset without the approval, and the
    two mappings agree on every other reviewer. *)
Theorem outsider_vote_is_local proj (pre post : list approval) review ts s s1 :
  wf_reviewers s ->
  strict_reviewers s ->
  reviewer_of review ∉ core_team proj ->
  process_patchset proj (Patchset (Some (pre ++ review :: post))) ts s
    = (s1, Ok tt) ->
  exists s2,
    process_patchset proj (Patchset (Some (pre ++ post))) ts s = (s2, Ok tt) /\
    forall k, k <> reviewer_of review -> s1 !! k = s2 !! k.
Proof.
  intros Hwf Hs Hout Hrun.
  apply process_patchset_ok_inv in Hrun as [Hok Htally].
  unfold approvals_of in Hok, Htally.
  cbn [approvals default from_option] in Hok, Htally. unfold id in Hok, Htally.
  rewrite !latest_core_vote_spec_drop, !is_core_vote_outside in Htally
    by assumption.
  pose proof (tally_ok_labels _ _ _ _ _ _ Hs Htally) as Hlab.
  apply Forall_app in Hlab as [Hlab1 Hlab2].
  apply Forall_cons in Hlab2 as [_ Hlab2].
  rewrite forallb_app in Hok. simpl in Hok.
  apply andb_true_iff in Hok as [Hok1 Hok2].
  apply andb_true_iff in Hok2 as [_ Hok2].
  destruct (tally_returns (latest_core_vote_spec proj true (pre ++ post))
              (latest_core_vote_spec proj false (pre ++ post)) ts (pre ++ post)
              s Hwf) as (s2 & Hrun2 & _).
  { apply Forall_app. auto. }
  exists s2. split.
  - unfold process_patchset, approvals_of.
    cbn [approvals default from_option]. unfold id.
    rewrite core_votes_closed, forallb_app, Hok1, Hok2. exact Hrun2.
  - intros k Hk. eapply settled_unique.
    + eapply tally_settled. exact Htally.
    + eapply (settled_perm _ _ _ _ (review :: pre ++ post));
        [apply Permutation_middle|].
      apply settled_cons_other.
      * unfold by_reviewer. rewrite (bool_decide_eq_false_2 (reviewer_of review = k))
          by congruence. apply andb_false_r.
      * eapply tally_settled. exact Hrun2.
Qed.

Lemma outsider_vote_is_local_witness :
  exists s2,
    process_patchset nova
      (Patchset (Some ([crvw "alice" "-2" 100] ++ [crvw "carol" "1" 70]))) 0 ∅
      = (s2, Ok tt) /\
    forall k, k <> reviewer_of (crvw "bob" "2" 50) ->
      fst (process_patchset nova
             (Patchset (Some ([crvw "alice" "-2" 100]
                              ++ crvw "bob" "2" 50 :: [crvw "carol" "1" 70])))
             0 ∅) !! k = s2 !! k.
Proof.
  apply (outsider_vote_is_local nova [crvw "alice" "-2" 100]
           [crvw "carol" "1" 70] (crvw "bob" "2" 50) 0 ∅).
  - exact wf_empty.
  - exact strict_empty.
  - unfold reviewer_of, nova. simpl. rewrite elem_of_cons, elem_of_nil.
    intros [H|[]]. discriminate.
  - vm_compute. reflexivity.
Defined.

(** ** Totals and vote counts agree *)

Lemma stat_vote_tallied lcp lcn review cur st label :
  stat_vote (stat_tallied lcp lcn review cur st) label =
    if bool_decide (value review = label) then cur + 1 else stat_vote st label.
Proof.
  unfold stat_vote, stat_tallied. cbn [votes]. case_bool_decide.
  - subst label. by rewrite lookup_insert_eq.
  - by rewrite lookup_insert_ne.
Qed.

Lemma votes_sum_tallied lcp lcn review cur st :
  value review ∈ vote_labels ->
  votes st !! value review = Some cur ->
  votes_sum (stat_tallied lcp lcn review cur st) = votes_sum st + 1.
Proof.
  intros Hl Hcur. unfold votes_sum. rewrite !stat_vote_tallied.
  assert (Hc : stat_vote st (value review) = cur)
    by (unfold stat_vote; by rewrite Hcur).
  unfold vote_labels in Hl. rewrite !elem_of_cons, elem_of_nil in Hl.
  destruct Hl as [Hv|[Hv|[Hv|[Hv|[]]]]]; rewrite Hv in *;
    cbn [bool_decide decide_rel]; rewrite <- Hc;
    repeat case_bool_decide; try discriminate; try congruence; lia.
Qed.

Lemma balanced_tallied lcp lcn review cur st :
  has_labels st -> only_labels st ->
  (forall l, 0 <= stat_vote st l) ->
  stat_total st = votes_sum st ->
  0 <= stat_disagreements st <= stat_total st ->
  votes st !! value review = Some cur ->
  balanced (stat_tallied lcp lcn review cur st).
Proof.
  intros Hhas Honly Hnn Htot Hdis Hcur.
  assert (Hlab : value review ∈ vote_labels) by (apply Honly; eauto).
  split; [by apply voted_tallied|].
  rewrite votes_sum_tallied by assumption.
  unfold stat_total, stat_disagreements, stat_tallied in *.
  cbn [total disagreements default from_option]. unfold id in *.
  pose proof (rules_exclusive lcp lcn review) as Hex.
  split; [lia|].
  destruct (rule_A lcn review), (rule_B lcp review); cbn [andb] in Hex;
    try discriminate; lia.
Qed.

Lemma all_balanced_tally_review lcp lcn ts review s s' :
  all_balanced s ->
  tally_review lcp lcn ts review s = (s', Ok tt) ->
  all_balanced s'.
Proof.
  intros Hall Hrun. destruct (counted ts review) eqn:Hc.
  - rewrite tally_review_counted in Hrun by assumption. cbv zeta in Hrun.
    destruct (votes _ !! value review) as [cur|] eqn:Hcur; [|discriminate].
    inversion Hrun; subst s'. clear Hrun.
    intros k st Hk. destruct (decide (reviewer_of review = k)) as [<-|Hne].
    + rewrite lookup_insert_eq in Hk. inversion Hk; subst st. clear Hk.
      destruct (s !! reviewer_of review) as [st0|] eqn:Hs; simpl in *.
      * destruct (Hall _ _ Hs) as ((? & ? & _ & _ & ? & _) & ? & ?).
        by apply balanced_tallied.
      * apply balanced_tallied; try assumption.
        -- exact has_labels_fresh.
        -- intros l. simpl. rewrite fresh_votes_lookup.
           case_bool_decide; [done|]. by intros [? ?].
        -- intros l. rewrite stat_vote_fresh. lia.
        -- reflexivity.
        -- unfold stat_disagreements, stat_total. simpl. lia.
    + rewrite lookup_insert_ne in Hk by assumption. eauto.
  - rewrite tally_review_skip in Hrun by assumption. by inversion Hrun; subst.
Qed.

Lemma all_balanced_process_patchset proj ps ts s s' :
  all_balanced s ->
  process_patchset proj ps ts s = (s', Ok tt) ->
  all_balanced s'.
Proof.
  unfold process_patchset. intros Hall Hrun.
  destruct (core_votes proj (approvals_of ps)) as [[lcp lcn]|e].
  - eapply (for_each_inv all_balanced); [|exact Hall|exact Hrun].
    intros x s0 s1. apply all_balanced_tally_review.
  - discriminate.
Qed.

Lemma all_balanced_aggregate work ts s s' :
  all_balanced s -> aggregate work ts s = (s', Ok tt) -> all_balanced s'.
Proof.
  unfold aggregate. intros Hall Hrun.
  eapply (for_each_inv all_balanced); [|exact Hall|exact Hrun].
  intros [proj changes] s0 s1 H0 Hch. simpl in Hch.
  eapply (for_each_inv all_balanced); [|exact H0|exact Hch].
  intros ch s2 s3 H2 Hps.
  eapply (for_each_inv all_balanced); [|exact H2|exact Hps].
  intros ps s4 s5. apply all_balanced_process_patchset.
Qed.

Lemma make_row_fields projects k v r :
  make_row projects k v = Ok r ->
  stat_vote k "2" = row_plus2 r /\ stat_vote k "1" = row_plus1 r /\
  stat_vote k "-2" = row_minus2 r /\ stat_vote k "-1" = row_minus1 r /\
  stat_total k = row_total r /\
  stat_disagreements k = row_disagreements r.
Proof.
  unfold make_row, plus_minus_ratio, float_div, stat_vote, stat_total,
    stat_disagreements. intros H.
  repeat match type of H with
  | context [rlookup ?o] => destruct o; simpl in H; try discriminate
  | context [Qeq_bool ?x ?y] => destruct (Qeq_bool x y); simpl in H;
                                try discriminate
  end.
  all: inversion H; subst r; simpl; auto 10.
Qed.

Lemma reviewer_rows_elem projects l rs tot r :
  reviewer_rows projects l = Ok (rs, tot) ->
  r ∈ rs ->
  exists kv, kv ∈ l /\ make_row projects (fst kv) (snd kv) = Ok r.
Proof.
  revert rs tot. induction l as [|kv l IH]; intros rs tot H Hin; simpl in H.
  - inversion H; subst. by apply elem_of_nil in Hin.
  - destruct (make_row projects (fst kv) (snd kv)) as [r0|e] eqn:Hr;
      simpl in H; [|discriminate].
    destruct (reviewer_rows projects l) as [[rs' tot']|e]; simpl in H;
      [|discriminate].
    inversion H; subst rs tot. apply elem_of_cons in Hin as [->|Hin].
    + exists kv. split; [constructor|assumption].
    + destruct (IH rs' tot' eq_refl Hin) as (kv' & Hin' & Hrow).
      exists kv'. split; [by constructor|assumption].
Qed.

Lemma build_report_row projects items rep r :
  build_report projects items = Ok rep ->
  r ∈ rows rep ->
  exists k st, (k, st) ∈ items /\ (lower k ∉ excluded_names) /\
               make_row projects st k = Ok r.
Proof.
  intros H Hin.
  destruct (build_report_inv _ _ _ H) as (ranked & Hsort & Hrows & _).
  destruct (sort_by_total_inv _ _ Hsort) as [Hperm _].
  destruct (reviewer_rows_elem _ _ _ _ _ Hrows Hin) as ([st k] & Hkv & Hrow).
  rewrite Hperm in Hkv. apply report_candidates_elem in Hkv as [Hitem Hex].
  eauto.
Qed.

Lemma all_balanced_empty : all_balanced ∅.
Proof. intros k st H. by rewrite lookup_empty in H. Qed.

(** X9. In every report of [main], each row's number of reviews is the
    sum of its four vote counts and is at least 1, no count is
    negative, and the disagreements are between 0 and the number of
    reviews. *)
Theorem report_rows_consistent work ts rep r :
  main_report work ts = Ok rep ->
  r ∈ rows rep ->
  row_total r = row_minus2 r + row_minus1 r + row_plus1 r + row_plus2 r /\
  1 <= row_total r /\
  0 <= row_minus2 r /\ 0 <= row_minus1 r /\
  0 <= row_plus1 r /\ 0 <= row_plus2 r /\
  0 <= row_disagreements r <= row_total r.
Proof.
  unfold main_report. intros H Hin.
  destruct (aggregate work ts ∅) as [s [[]|e]] eqn:Hagg; [|discriminate].
  pose proof (all_balanced_aggregate _ _ _ _ all_balanced_empty Hagg) as Hall.
  destruct (build_report_row _ _ _ _ H Hin) as (k & st & Hitem & _ & Hrow).
  apply elem_of_map_to_list in Hitem.
  destruct (Hall k st Hitem) as ((_ & _ & _ & _ & Hnn & Hsum) & Htot & Hdis).
  destruct (make_row_fields _ _ _ _ Hrow) as (<- & <- & <- & <- & <- & <-).
  unfold votes_sum in *.
  pose proof (Hnn "2"). pose proof (Hnn "1").
  pose proof (Hnn "-2"). pose proof (Hnn "-1"). lia.
Qed.

Lemma report_rows_consistent_witness :
  exists r,
    rows nova_report !! 0%nat = Some r /\
    row_total r = row_minus2 r + row_minus1 r + row_plus1 r + row_plus2 r /\
    1 <= row_total r /\
    0 <= row_minus2 r /\ 0 <= row_minus1 r /\
    0 <= row_plus1 r /\ 0 <= row_plus2 r /\
    0 <= row_disagreements r <= row_total r.
Proof.
  eexists. split; [vm_compute; reflexivity|].
  apply (report_rows_consistent nova_work 0 nova_report).
  - vm_compute. reflexivity.
  - vm_compute. constructor.
Defined.

(** ** Ties in the ranking *)

Lemma insert_desc_filter {A} (x : Z * A) l t :
  List.filter (fun y => fst y =? t) (insert_desc x l) =
  List.filter (fun y => fst y =? t) (x :: l).
Proof.
  induction l as [|y l IH]; [reflexivity|].
  cbn [insert_desc]. destruct (Z.ltb_spec (fst x) (fst y)); [|reflexivity].
  cbn [List.filter] in *. rewrite IH.
  destruct (Z.eqb_spec (fst x) t), (Z.eqb_spec (fst y) t); try reflexivity. lia.
Qed.

Lemma sort_desc_filter {A} (l : list (Z * A)) t :
  List.filter (fun y => fst y =? t) (sort_desc l) =
  List.filter (fun y => fst y =? t) l.
Proof.
  unfold sort_desc. induction l as [|x l IH]; [reflexivity|].
  cbn [foldr]. rewrite insert_desc_filter. cbn [List.filter]. by rewrite IH.
Qed.

Lemma filter_keyed (keyed : list (Z * (reviewer_stat * string))) t :
  Forall (fun x => total (fst (snd x)) = Some (fst x)) keyed ->
  List.filter (fun r => bool_decide (total (fst r) = Some t)) (snd <$> keyed) =
  snd <$> List.filter (fun y => fst y =? t) keyed.
Proof.
  induction 1 as [|x keyed Hx _ IH]; [reflexivity|].
  rewrite fmap_cons. cbn [List.filter]. rewrite IH, Hx.
  destruct (Z.eqb_spec (fst x) t) as [->|Hne].
  - by rewrite bool_decide_eq_true_2.
  - rewrite bool_decide_eq_false_2 by congruence. reflexivity.
Qed.

(** X10. The sort of the ranking is stable: the reviewers with a same
    total stay in the order in which the list had them before the sort
    (the dictionary's iteration order), and the sort only rearranges
    the list. *)
Theorem sort_by_total_stable l ranked t :
  sort_by_total l = Ok ranked ->
  List.filter (fun r => bool_decide (total (fst r) = Some t)) ranked =
  List.filter (fun r => bool_decide (total (fst r) = Some t)) l /\
  ranked ≡ₚ l.
Proof.
  intros H. split; [|by apply sort_by_total_inv in H as [? _]].
  unfold sort_by_total in H.
  destruct (sort_keys l) as [keyed|e] eqn:Hk; simpl in H; [|discriminate].
  inversion H; subst ranked. destruct (sort_keys_inv _ _ Hk) as [Hl Hf].
  rewrite <- Hl. rewrite !filter_keyed.
  - by rewrite sort_desc_filter.
  - exact Hf.
  - by rewrite sort_desc_perm.
Qed.

Lemma sort_by_total_stable_witness :
  List.filter (fun r => bool_decide (total (fst r) = Some 3))
    [(ReviewerStat fresh_votes None (Some 3), "b");
     (ReviewerStat fresh_votes None (Some 3), "a");
     (ReviewerStat fresh_votes None (Some 1), "c")] =
  List.filter (fun r => bool_decide (total (fst r) = Some 3))
    [(ReviewerStat fresh_votes None (Some 1), "c");
     (ReviewerStat fresh_votes None (Some 3), "b");
     (ReviewerStat fresh_votes None (Some 3), "a")] /\
  [(ReviewerStat fresh_votes None (Some 3), "b");
   (ReviewerStat fresh_votes None (Some 3), "a");
   (ReviewerStat fresh_votes None (Some 1), "c")]
  ≡ₚ [(ReviewerStat fresh_votes None (Some 1), "c");
      (ReviewerStat fresh_votes None (Some 3), "b");
      (ReviewerStat fresh_votes None (Some 3), "a")].
Proof.
  apply (sort_by_total_stable
           [(ReviewerStat fresh_votes None (Some 1), "c");
            (ReviewerStat fresh_votes None (Some 3), "b");
            (ReviewerStat fresh_votes None (Some 3), "a")]).
  reflexivity.
Defined.

(** ** The summary lines *)

Lemma reviewer_rows_total projects l rs tot :
  reviewer_rows projects l = Ok (rs, tot) ->
  tot = foldr Z.add 0 (row_total <$> rs) /\ length rs = length l.
Proof.
  revert rs tot. induction l as [|kv l IH]; intros rs tot H; simpl in H.
  - inversion H. split; reflexivity.
  - destruct (make_row projects (fst kv) (snd kv)) as [r|e]; simpl in H;
      [|discriminate].
    destruct (reviewer_rows projects l) as [[rs' tot']|e]; simpl in H;
      [|discriminate].
    inversion H; subst rs tot. destruct (IH rs' tot' eq_refl) as [-> Hlen].
    split; [reflexivity|]. simpl. by rewrite Hlen.
Qed.

Lemma foldr_add_perm (l l' : list Z) :
  l ≡ₚ l' -> foldr Z.add 0 l = foldr Z.add 0 l'.
Proof.
  induction 1; simpl; lia.
Qed.

Lemma row_totals_of_ranked (l : list (reviewer_stat * string)) rs :
  Forall2 (fun kv r => total (fst kv) = Some (row_total r)) l rs ->
  row_total <$> rs = (fun kv => stat_total (fst kv)) <$> l.
Proof.
  induction 1 as [|kv r l rs Hr _ IH]; [reflexivity|].
  rewrite !fmap_cons, IH. f_equal. unfold stat_total. by rewrite Hr.
Qed.

(** X11. In every report that is built, ['Total reviews'] is the sum of
    the rows' totals, which is the sum of the totals of the entries
    whose lower-cased key is neither ["jenkins"] nor ["smokestack"],
    and there are as many rows as ['Total reviewers'] says. *)
Theorem report_totals projects items rep :
  build_report projects items = Ok rep ->
  total_reviews rep = foldr Z.add 0 (row_total <$> rows rep) /\
  total_reviews rep =
    foldr Z.add 0
      ((fun kv => stat_total (snd kv))
         <$> List.filter
               (fun kv => bool_decide (lower (fst kv) ∉ excluded_names)) items) /\
  length (rows rep) = total_reviewers rep.
Proof.
  intros H. destruct (build_report_inv _ _ _ H) as (ranked & Hsort & Hrows & Hlen).
  destruct (reviewer_rows_total _ _ _ _ Hrows) as [Htot Hl].
  destruct (reviewer_rows_inv _ _ _ _ Hrows) as [_ Hf2].
  destruct (sort_by_total_inv _ _ Hsort) as [Hperm _].
  split; [exact Htot|]. split; [|congruence].
  rewrite Htot, (row_totals_of_ranked _ _ Hf2).
  rewrite (foldr_add_perm _ _ (fmap_Permutation _ _ _ Hperm)).
  unfold report_candidates. rewrite <- list_fmap_compose. reflexivity.
Qed.

Lemma report_totals_witness :
  total_reviews bots_report = foldr Z.add 0 (row_total <$> rows bots_report) /\
  total_reviews bots_report =
    foldr Z.add 0
      ((fun kv => stat_total (snd kv))
         <$> List.filter
               (fun kv => bool_decide (lower (fst kv) ∉ excluded_names))
               with_bots) /\
  length (rows bots_report) = total_reviewers bots_report.
Proof.
  apply (report_totals [nova] with_bots bots_report).
  vm_compute. reflexivity.
Defined.

(** ** The two percentages of a row *)

(** X12. For an entry that has its four vote counts, its total and its
    disagreements, the row is computed unless there is no vote at all,
    in which case the +/- percentage raises [ZeroDivisionError]; the
    disagreement percentage never does: without a positive vote it is
    0. *)
Theorem make_row_outcome projects k v v2 v1 m2 m1 t d :
  votes k !! "2" = Some v2 -> votes k !! "1" = Some v1 ->
  votes k !! "-2" = Some m2 -> votes k !! "-1" = Some m1 ->
  total k = Some t -> disagreements k = Some d ->
  make_row projects k v =
    if v2 + v1 + (m2 + m1) =? 0 then Raise ZeroDivisionError
    else Ok (Row (display_name projects v) t m2 m1 v1 v2
               (inject_Z (v2 + v1)
                / (inject_Z (v2 + v1) + inject_Z (m2 + m1)) * 100)%Q
               d
               (if v2 + v1 =? 0 then 0%Q
                else (inject_Z d / inject_Z (v2 + v1) * 100)%Q)).
Proof.
  intros H2 H1 Hm2 Hm1 Ht Hd. unfold make_row.
  rewrite H2, H1, Hm2, Hm1, Ht, Hd. cbn [rlookup rbind].
  rewrite plus_minus_ratio_cases.
  destruct (v2 + v1 + (m2 + m1) =? 0); [reflexivity|]. cbn [rbind].
  unfold float_div. rewrite Qeq_bool_inject.
  destruct (v2 + v1 =? 0); reflexivity.
Qed.

Lemma make_row_outcome_witness :
  make_row [nova] (ReviewerStat (<["-1" := 3]> fresh_votes) (Some 2) (Some 3)) "bob" =
    if 0 + 0 + (0 + 3) =? 0 then Raise ZeroDivisionError
    else Ok (Row (display_name [nova] "bob") 3 0 3 0 0
               (inject_Z (0 + 0)
                / (inject_Z (0 + 0) + inject_Z (0 + 3)) * 100)%Q
               2
               (if 0 + 0 =? 0 then 0%Q
                else (inject_Z 2 / inject_Z (0 + 0) * 100)%Q)).
Proof.
  apply (make_row_outcome [nova]
           (ReviewerStat (<["-1" := 3]> fresh_votes) (Some 2) (Some 3)) "bob"
           0 0 0 3 3 2); reflexivity.
Defined.

(** ** [patch_set_approved] *)

Lemma approved_in_true l :
  approved_in l = Ok true -> exists r, r ∈ l /\ approves r.
Proof.
  induction l as [|r l IH]; simpl; [discriminate|].
  case_bool_decide as Ha.
  - intros _. exists r. split; [constructor|by left].
  - case_bool_decide as Hw.
    + destruct (py_int (value r)) as [v|] eqn:Hv; [|discriminate].
      destruct (Z.ltb_spec 0 v).
      * intros _. exists r. split; [constructor|]. right. eauto.
      * intros H0. destruct (IH H0) as (r' & Hin & Hr').
        exists r'. split; [by constructor|assumption].
    + intros H0. destruct (IH H0) as (r' & Hin & Hr').
      exists r'. split; [by constructor|assumption].
Qed.

Lemma approved_in_false l :
  approved_in l = Ok false -> forall r, r ∈ l -> ~ approves r.
Proof.
  induction l as [|r l IH]; simpl.
  - intros _ r Hr. by apply elem_of_nil in Hr.
  - case_bool_decide as Ha; [discriminate|].
    case_bool_decide as Hw.
    + destruct (py_int (value r)) as [v|] eqn:Hv; [|discriminate].
      destruct (Z.ltb_spec 0 v); [discriminate|].
      intros H0 r' Hin. apply elem_of_cons in Hin as [->|Hin]; [|by apply IH].
      intros [Hty|(_ & v' & Hv' & Hpos)]; [contradiction|].
      rewrite Hv in Hv'. inversion Hv'. lia.
    + intros H0 r' Hin. apply elem_of_cons in Hin as [->|Hin]; [|by apply IH].
      intros [Hty|(Hty & _)]; contradiction.
Qed.

(** X13. When [patch_set_approved] returns, it returns [True] exactly
    when the patchset has an approval of type ['Approved'] or one of
    type ['Workflow'] with a positive value; it returns, and does not
    raise, when every ['Workflow'] approval has a value that [int]
    accepts; a patchset without approvals is not approved. *)
Theorem patch_set_approved_iff ps :
  (forall b, patch_set_approved ps = Ok b ->
     (b = true <-> exists r, r ∈ approvals_of ps /\ approves r)) /\
  (Forall (fun r => type r = "Workflow" -> is_Some (py_int (value r)))
     (approvals_of ps) ->
   exists b, patch_set_approved ps = Ok b) /\
  patch_set_approved (Patchset None) = Ok false /\
  patch_set_approved (Patchset (Some [])) = Ok false.
Proof.
  unfold patch_set_approved. split; [|split; [|split; reflexivity]].
  - intros [|] H.
    + split; [intros _; by apply approved_in_true|reflexivity].
    + split; [discriminate|]. intros (r & Hin & Hr).
      exfalso. exact (approved_in_false _ H r Hin Hr).
  - induction 1 as [|r l Hr _ IH]; simpl; [eauto|].
    case_bool_decide; [eauto|]. case_bool_decide as Hw; [|exact IH].
    destruct (Hr Hw) as [v ->]. destruct (0 <? v); eauto.
Qed.

(** X14. A code review never approves a patchset, whatever its value:
    with no approval of type ['Approved'] or ['Workflow'] the answer is
    [False] and no value is read. Once an approval approves, what comes
    after it is not read: further approvals, also with a value that
    [int] rejects, leave the answer [True]. *)
Theorem patch_set_approved_scan (l l' : list approval) :
  (Forall (fun r => type r <> "Approved" /\ type r <> "Workflow") l ->
   patch_set_approved (Patchset (Some l)) = Ok false) /\
  (patch_set_approved (Patchset (Some l)) = Ok true ->
   patch_set_approved (Patchset (Some (l ++ l'))) = Ok true).
Proof.
  unfold patch_set_approved, approvals_of. cbn [approvals default from_option].
  unfold id. split.
  - induction 1 as [|r l [Ha Hw] _ IH]; simpl; [reflexivity|].
    by rewrite !bool_decide_eq_false_2.
  - induction l as [|r l IH]; simpl; [discriminate|].
    case_bool_decide; [reflexivity|]. case_bool_decide; [|exact IH].
    destruct (py_int (value r)) as [v|]; [|discriminate].
    destruct (0 <? v); [reflexivity|exact IH].
Qed.

(** ** [is_workinprogress] *)

Lemma wip_in_true l :
  wip_in l = WipReturn true -> exists a, a ∈ l /\ marks_wip a.
Proof.
  induction l as [|a l IH]; simpl; [discriminate|].
  case_bool_decide as Hw.
  - destruct (py_int (value a)) as [v|] eqn:Hv; [|discriminate].
    destruct (Z.ltb_spec v 0).
    + intros _. exists a. split; [constructor|]. split; eauto.
    + intros H0. destruct (IH H0) as (a' & Hin & Ha').
      exists a'. split; [by constructor|assumption].
  - intros H0. destruct (IH H0) as (a' & Hin & Ha').
    exists a'. split; [by constructor|assumption].
Qed.

Lemma wip_in_false l :
  wip_in l = WipReturn false -> forall a, a ∈ l -> ~ marks_wip a.
Proof.
  induction l as [|a l IH]; simpl.
  - intros _ a Ha. by apply elem_of_nil in Ha.
  - case_bool_decide as Hw.
    + destruct (py_int (value a)) as [v|] eqn:Hv; [|discriminate].
      destruct (Z.ltb_spec v 0); [discriminate|].
      intros H0 a' Hin. apply elem_of_cons in Hin as [->|Hin]; [|by apply IH].
      intros (_ & v' & Hv' & Hneg). rewrite Hv in Hv'. inversion Hv'. lia.
    + intros H0 a' Hin. apply elem_of_cons in Hin as [->|Hin]; [|by apply IH].
      intros (Hty & _). contradiction.
Qed.

(** X15. A change whose status is not ['NEW'] is work in progress
    whatever its patchsets, also when it has none. For a ['NEW'] change
    only the last patchset is read: the answer is that of the change
    with that patchset alone; without any patchset the call raises
    [IndexError], and a last patchset without the ['approvals'] key
    gives [False]. *)
Theorem is_workinprogress_last_patch st (pss : list patchset) last_patch ch :
  st <> "NEW" ->
  is_workinprogress (GerritChange (Some st) ch) = WipReturn true /\
  is_workinprogress
    (GerritChange (Some "NEW") (Change (Some (pss ++ [last_patch])))) =
  is_workinprogress (GerritChange (Some "NEW") (Change (Some [last_patch]))) /\
  is_workinprogress (GerritChange (Some "NEW") (Change (Some []))) = WipIndexError /\
  is_workinprogress
    (GerritChange (Some "NEW") (Change (Some (pss ++ [Patchset None])))) =
  WipReturn false.
Proof.
  intros Hst. unfold is_workinprogress. cbn [status as_change patchSets].
  rewrite (bool_decide_eq_true_2 _ Hst).
  rewrite (bool_decide_eq_false_2 ("NEW" <> "NEW")) by (intros H; by apply H).
  rewrite !last_snoc. repeat split; reflexivity.
Qed.

Lemma is_workinprogress_last_patch_witness :
  is_workinprogress (GerritChange (Some "MERGED") (Change None)) = WipReturn true /\
  is_workinprogress
    (GerritChange (Some "NEW")
       (Change (Some ([scenario1] ++ [Patchset (Some [Approval "Workflow" (Some "bob") "-1" 7])])))) =
  is_workinprogress
    (GerritChange (Some "NEW")
       (Change (Some [Patchset (Some [Approval "Workflow" (Some "bob") "-1" 7])]))) /\
  is_workinprogress (GerritChange (Some "NEW") (Change (Some []))) = WipIndexError /\
  is_workinprogress
    (GerritChange (Some "NEW") (Change (Some ([scenario1] ++ [Patchset None])))) =
  WipReturn false.
Proof.
  apply (is_workinprogress_last_patch "MERGED" [scenario1]
           (Patchset (Some [Approval "Workflow" (Some "bob") "-1" 7]))
           (Change None)).
  discriminate.
Defined.

(** X16. When [is_workinprogress] returns on a ['NEW'] change whose
    last patchset has approvals, it returns [True] exactly when one of
    them is of type ['Workflow'] with a negative value; votes of other
    types, code reviews among them, and the earlier patchsets play no
    part. *)
Theorem is_workinprogress_iff (pss : list patchset) (l : list approval) b :
  is_workinprogress
    (GerritChange (Some "NEW") (Change (Some (pss ++ [Patchset (Some l)]))))
  = WipReturn b ->
  (b = true <-> exists a, a ∈ l /\ marks_wip a).
Proof.
  unfold is_workinprogress. cbn [status as_change patchSets].
  rewrite (bool_decide_eq_false_2 ("NEW" <> "NEW")) by (intros H; by apply H).
  rewrite last_snoc. cbn [approvals]. destruct b; intros H.
  - split; [intros _; by apply wip_in_true|reflexivity].
  - split; [discriminate|]. intros (a & Hin & Ha).
    exfalso. exact (wip_in_false _ H a Hin Ha).
Qed.

Lemma is_workinprogress_iff_witness :
  true = true <->
  exists a, a ∈ [crvw "alice" "-2" 5; Approval "Workflow" (Some "bob") "-1" 7]
            /\ marks_wip a.
Proof.
  apply (is_workinprogress_iff [scenario1]
           [crvw "alice" "-2" 5; Approval "Workflow" (Some "bob") "-1" 7] true).
  reflexivity.
Defined.

(** ** [get_age_of_patch] *)

Lemma insert_asc_perm {A} (key : A -> Z) x l : insert_asc key x l ≡ₚ x :: l.
Proof.
  induction l as [|y l IH]; simpl; [reflexivity|].
  destruct (key y <? key x); [|reflexivity].
  rewrite IH. apply Permutation_swap.
Qed.

Lemma sort_asc_perm {A} (key : A -> Z) l : sort_asc key l ≡ₚ l.
Proof.
  unfold sort_asc. induction l as [|x l IH]; simpl; [reflexivity|].
  by rewrite insert_asc_perm, IH.
Qed.

Lemma insert_asc_sorted {A} (key : A -> Z) x l :
  Sorted (fun a b => key a <= key b) l ->
  Sorted (fun a b => key a <= key b) (insert_asc key x l).
Proof.
  induction 1 as [|y l Hs IH Hhd]; simpl.
  - repeat constructor.
  - destruct (Z.ltb_spec (key y) (key x)).
    + constructor; [exact IH|].
      destruct l as [|z l]; simpl.
      * constructor. lia.
      * destruct (key z <? key x); constructor; [|lia].
        by inversion Hhd.
    + constructor; [by constructor|]. by constructor.
Qed.

Lemma sort_asc_sorted {A} (key : A -> Z) l :
  Sorted (fun a b => key a <= key b) (sort_asc key l).
Proof.
  unfold sort_asc. induction l as [|x l IH]; simpl.
  - constructor.
  - by apply insert_asc_sorted.
Qed.

Lemma sorted_head_least {A} (key : A -> Z) a l :
  Sorted (fun a b => key a <= key b) (a :: l) ->
  forall b, b ∈ a :: l -> key a <= key b.
Proof.
  revert a. induction l as [|y l IH]; intros a Hs b Hb.
  - apply elem_of_cons in Hb as [->|Hb]; [lia|by apply elem_of_nil in Hb].
  - apply elem_of_cons in Hb as [->|Hb]; [lia|].
    inversion Hs as [|? ? Hs' Hhd]; subst. inversion Hhd; subst.
    specialize (IH y Hs' b Hb). lia.
Qed.

Lemma sort_asc_fixed {A} (key : A -> Z) l :
  Sorted (fun a b => key a <= key b) l -> sort_asc key l = l.
Proof.
  unfold sort_asc. induction 1 as [|x l Hs IH Hhd]; simpl; [reflexivity|].
  rewrite IH. destruct Hhd as [|y l Hxy]; simpl; [reflexivity|].
  destruct (Z.ltb_spec (key y) (key x)); [lia|reflexivity].
Qed.

Lemma insert_asc_filter {A} (key : A -> Z) x l t :
  List.filter (fun y => key y =? t) (insert_asc key x l) =
  List.filter (fun y => key y =? t) (x :: l).
Proof.
  induction l as [|y l IH]; [reflexivity|].
  cbn [insert_asc]. destruct (Z.ltb_spec (key y) (key x)); [|reflexivity].
  cbn [List.filter] in *. rewrite IH.
  destruct (Z.eqb_spec (key x) t), (Z.eqb_spec (key y) t); try reflexivity. lia.
Qed.

Lemma sort_asc_filter {A} (key : A -> Z) l t :
  List.filter (fun y => key y =? t) (sort_asc key l) =
  List.filter (fun y => key y =? t) l.
Proof.
  unfold sort_asc. induction l as [|x l IH]; [reflexivity|].
  cbn [foldr]. rewrite insert_asc_filter. cbn [List.filter]. by rewrite IH.
Qed.

(** X17. For a patch with at least one approval, [get_age_of_patch]
    returns the time from the earliest approval to [now_ts], without
    reading ['createdOn']: the age is that of one of the approvals and
    no approval is older, in whatever order the approvals are. *)
Theorem get_age_of_patch_earliest patch now_ts :
  approvals_of (as_patchset patch) <> [] ->
  exists age,
    fst (get_age_of_patch patch now_ts) = Ok age /\
    (exists a, a ∈ approvals_of (as_patchset patch) /\
               age = now_ts - grantedOn a) /\
    (forall a, a ∈ approvals_of (as_patchset patch) ->
               now_ts - grantedOn a <= age).
Proof.
  intros Hne. unfold get_age_of_patch. cbv zeta. cbn [fst].
  pose proof (sort_asc_perm grantedOn (approvals_of (as_patchset patch))) as Hperm.
  pose proof (sort_asc_sorted grantedOn (approvals_of (as_patchset patch)))
    as Hsorted.
  destruct (sort_asc grantedOn (approvals_of (as_patchset patch))) as [|a0 rest].
  - apply Permutation_nil_l in Hperm. congruence.
  - eexists. split; [reflexivity|]. split.
    + exists a0. split; [|reflexivity]. rewrite <- Hperm. constructor.
    + intros a Ha. rewrite <- Hperm in Ha.
      pose proof (sorted_head_least grantedOn a0 rest Hsorted a Ha). lia.
Qed.

Lemma get_age_of_patch_earliest_witness :
  exists age,
    fst (get_age_of_patch (GerritPatch None scenario1) 1000) = Ok age /\
    (exists a, a ∈ approvals_of (as_patchset (GerritPatch None scenario1)) /\
               age = 1000 - grantedOn a) /\
    (forall a, a ∈ approvals_of (as_patchset (GerritPatch None scenario1)) ->
               1000 - grantedOn a <= age).
Proof.
  apply (get_age_of_patch_earliest (GerritPatch None scenario1) 1000).
  discriminate.
Defined.

(** X18. [get_age_of_patch] leaves the patch with its approvals sorted
    in place by [grantedOn]: the same approvals, in ascending order,
    those of a same time in the order they had; a patch without the
    ['approvals'] key is left as it was. A second call finds the patch
    as the first left it and gives the same answer. With no approval
    the answer is the time from ['createdOn'], and a [KeyError] when
    that key is missing. *)
Theorem get_age_of_patch_sorts patch now_ts :
  let after := snd (get_age_of_patch patch now_ts) in
  (approvals (as_patchset patch) = None -> after = patch) /\
  createdOn after = createdOn patch /\
  approvals_of (as_patchset after) ≡ₚ approvals_of (as_patchset patch) /\
  Sorted (fun a b => grantedOn a <= grantedOn b)
         (approvals_of (as_patchset after)) /\
  (forall t,
     List.filter (fun a => grantedOn a =? t) (approvals_of (as_patchset after)) =
     List.filter (fun a => grantedOn a =? t) (approvals_of (as_patchset patch))) /\
  get_age_of_patch after now_ts = get_age_of_patch patch now_ts /\
  (approvals_of (as_patchset patch) = [] ->
   fst (get_age_of_patch patch now_ts) =
     match createdOn patch with
     | Some t => Ok (now_ts - t)
     | None => Raise KeyError
     end).
Proof.
  cbv zeta. unfold get_age_of_patch. cbv zeta. cbn [snd fst].
  destruct patch as [created [[l|]]]; unfold approvals_of;
    cbn [approvals as_patchset createdOn default from_option]; unfold id.
  - split; [discriminate|]. split; [reflexivity|].
    split; [apply sort_asc_perm|]. split; [apply sort_asc_sorted|].
    split; [intros t; apply sort_asc_filter|]. split.
    + by rewrite (sort_asc_fixed grantedOn _ (sort_asc_sorted grantedOn l)).
    + intros ->. cbn. by destruct created.
  - split; [reflexivity|]. split; [reflexivity|].
    cbn [sort_asc foldr].
    split; [reflexivity|]. split; [constructor|].
    split; [reflexivity|]. split; [reflexivity|].
    intros _. by destruct created.
Qed.

(** X19. The sort that [get_age_of_patch] leaves behind does not change
    the statistics: from a mapping whose entries have exactly the four
    vote labels, [process_patchset] returns the same mapping on the
    patch after the call as on the patch before it. *)
Theorem get_age_of_patch_keeps_stats proj patch now_ts ts s s' :
  wf_reviewers s ->
  strict_reviewers s ->
  process_patchset proj (as_patchset patch) ts s = (s', Ok tt) ->
  process_patchset proj
    (as_patchset (snd (get_age_of_patch patch now_ts))) ts s = (s', Ok tt).
Proof.
  intros Hwf Hs Hrun. unfold get_age_of_patch. cbv zeta. cbn [snd].
  destruct patch as [created [[l|]]]; [|exact Hrun].
  unfold approvals_of.
  cbn [approvals as_patchset default from_option] in *. unfold id.
  eapply process_patchset_perm_ok; [exact Hwf|exact Hs| |exact Hrun].
  symmetry. apply sort_asc_perm.
Qed.

Lemma get_age_of_patch_keeps_stats_witness :
  process_patchset nova
    (as_patchset (snd (get_age_of_patch (GerritPatch (Some 10) scenario1) 1000)))
    0 ∅
  = (fst (process_patchset nova scenario1 0 ∅), Ok tt).
Proof.
  apply (get_age_of_patch_keeps_stats nova (GerritPatch (Some 10) scenario1)
           1000 0 ∅).
  - exact wf_empty.
  - exact strict_empty.
  - vm_compute. reflexivity.
Defined.

(** ** Work done in two batches *)

Lemma for_each_fmap {A B} (f : A -> B) (body : B -> M unit) (l : list A) s :
  for_each body (f <$> l) s = for_each (fun x => body (f x)) l s.
Proof.
  revert s. induction l as [|x l IH]; intros s; simpl; [reflexivity|].
  unfold bind. destruct (body (f x) s) as [s1 [[]|e]]; [apply IH|reflexivity].
Qed.

Lemma for_each_concat {A B} (g : A -> list B) (body : B -> M unit) (l : list A) s :
  for_each (fun x => for_each body (g x)) l s
  = for_each body (concat (g <$> l)) s.
Proof.
  revert s. induction l as [|x l IH]; intros s; [reflexivity|].
  rewrite fmap_cons. cbn [concat for_each]. rewrite for_each_app.
  unfold bind. destruct (for_each body (g x) s) as [s1 [[]|e]];
    [apply IH|reflexivity].
Qed.

Lemma for_each_ext {A} (body body' : A -> M unit) (l : list A) s :
  (forall x s0, body x s0 = body' x s0) ->
  for_each body l s = for_each body' l s.
Proof.
  intros H. revert s. induction l as [|x l IH]; intros s; simpl; [reflexivity|].
  unfold bind. rewrite H. destruct (body' x s) as [s1 [[]|e]];
    [apply IH|reflexivity].
Qed.

Lemma aggregate_flat work ts s :
  aggregate work ts s =
  for_each (fun pp => process_patchset (fst pp) (snd pp) ts)
           (work_patchsets work) s.
Proof.
  unfold aggregate, work_patchsets.
  rewrite <- for_each_concat. apply for_each_ext. intros [proj changes] s0.
  cbn [fst snd]. unfold patchsets_of. rewrite for_each_fmap.
  rewrite <- for_each_concat. reflexivity.
Qed.

Lemma wf_process_patchset proj ps ts s s' out :
  wf_reviewers s -> process_patchset proj ps ts s = (s', out) -> wf_reviewers s'.
Proof.
  unfold process_patchset. intros Hwf Hrun.
  destruct (core_votes proj (approvals_of ps)) as [[lcp lcn]|e].
  - eapply wf_tally; eauto.
  - by inversion Hrun; subst.
Qed.

Lemma process_patchset_transfer proj ps ts sa sa' sb :
  strict_reviewers sa -> wf_reviewers sb ->
  process_patchset proj ps ts sa = (sa', Ok tt) ->
  exists sb', process_patchset proj ps ts sb = (sb', Ok tt) /\
              same_growth sa sa' sb sb'.
Proof.
  intros Hsa Hwb Hrun.
  apply process_patchset_ok_inv in Hrun as [Hok Ha].
  pose proof (tally_ok_labels _ _ _ _ _ _ Hsa Ha) as Hlab.
  destruct (tally_returns (latest_core_vote_spec proj true (approvals_of ps))
              (latest_core_vote_spec proj false (approvals_of ps)) ts
              (approvals_of ps) sb Hwb Hlab) as (sb' & Hb & _).
  exists sb'. split.
  - unfold process_patchset. by rewrite core_votes_closed, Hok.
  - intros k.
    destruct (tally_counts _ _ _ _ _ _ k Ha) as (Ht & Hd & Hv & _).
    destruct (tally_counts _ _ _ _ _ _ k Hb) as (Ht' & Hd' & Hv' & _).
    split; [lia|]. split; [lia|]. intros label.
    rewrite Hv, Hv'. lia.
Qed.

Lemma same_growth_trans sa sa1 sa2 sb sb1 sb2 :
  same_growth sa sa1 sb sb1 -> same_growth sa1 sa2 sb1 sb2 ->
  same_growth sa sa2 sb sb2.
Proof.
  intros H1 H2 k. destruct (H1 k) as (Ht & Hd & Hv).
  destruct (H2 k) as (Ht' & Hd' & Hv').
  split; [lia|]. split; [lia|]. intros label.
  specialize (Hv label). specialize (Hv' label). lia.
Qed.

Lemma calls_transfer ts (calls : list (project * patchset)) sa sa' sb :
  strict_reviewers sa -> wf_reviewers sb ->
  for_each (fun pp => process_patchset (fst pp) (snd pp) ts) calls sa
    = (sa', Ok tt) ->
  exists sb',
    for_each (fun pp => process_patchset (fst pp) (snd pp) ts) calls sb
      = (sb', Ok tt) /\
    same_growth sa sa' sb sb'.
Proof.
  revert sa sb. induction calls as [|[proj ps] calls IH];
    intros sa sb Hsa Hwb Hrun; simpl in Hrun.
  - inversion Hrun; subst sa'. exists sb. split; [reflexivity|].
    intros k. split; [lia|]. split; [lia|]. intros; lia.
  - unfold bind in Hrun.
    destruct (process_patchset proj ps ts sa) as [sa1 [[]|e]] eqn:Hstep;
      [|discriminate].
    destruct (process_patchset_transfer _ _ _ _ _ sb Hsa Hwb Hstep)
      as (sb1 & Hstepb & Hg1).
    assert (Hsa1 : strict_reviewers sa1).
    { pose proof (strict_process_patchset proj ps ts sa Hsa) as H.
      by rewrite Hstep in H. }
    assert (Hwb1 : wf_reviewers sb1) by (eapply wf_process_patchset; eauto).
    destruct (IH sa1 sb1 Hsa1 Hwb1 Hrun) as (sb' & Hrunb & Hg2).
    exists sb'. split.
    + simpl. unfold bind. cbn [fst snd]. by rewrite Hstepb.
    + eapply same_growth_trans; eauto.
Qed.

(** X20. Work done in two batches adds up. If [main]'s loops return on
    the work [w1 ++ w2] from the empty mapping, they return on [w1] and
    on [w2] taken alone, and each reviewer's total, disagreements and
    vote counts in the whole are the sums of those in the two parts. *)
Theorem aggregate_merge (w1 w2 : list (project * list change)) ts s :
  aggregate (w1 ++ w2) ts ∅ = (s, Ok tt) ->
  exists s1 s2,
    aggregate w1 ts ∅ = (s1, Ok tt) /\
    aggregate w2 ts ∅ = (s2, Ok tt) /\
    forall k,
      total_of s k = total_of s1 k + total_of s2 k /\
      disagreements_of s k = disagreements_of s1 k + disagreements_of s2 k /\
      (forall label, vote_of s k label = vote_of s1 k label + vote_of s2 k label).
Proof.
  intros Hrun. unfold aggregate in Hrun. rewrite for_each_app in Hrun.
  unfold bind in Hrun. fold (aggregate w1 ts ∅) in Hrun.
  destruct (aggregate w1 ts ∅) as [s1 [[]|e]] eqn:H1; [|discriminate].
  fold (aggregate w2 ts s1) in Hrun.
  assert (Hs1 : strict_reviewers s1).
  { rewrite aggregate_flat in H1. clear Hrun.
    revert H1. generalize (work_patchsets w1) as calls.
    assert (Hs0 : strict_reviewers ∅) by exact strict_empty.
    revert Hs0. generalize (∅ : reviewers_map) as s0.
    intros s0 Hs0 calls. revert s0 Hs0.
    induction calls as [|[proj ps] calls IH]; intros s0 Hs0 H; simpl in H.
    - by inversion H; subst.
    - unfold bind in H. cbn [fst snd] in H.
      pose proof (strict_process_patchset proj ps ts s0 Hs0) as Hst.
      destruct (process_patchset proj ps ts s0) as [s0' [[]|e]];
        [|discriminate].
      eapply IH; eauto. }
  rewrite aggregate_flat in Hrun.
  destruct (calls_transfer ts _ s1 s ∅ Hs1 wf_empty Hrun) as (s2 & H2 & Hg).
  exists s1, s2. split; [reflexivity|]. split; [by rewrite aggregate_flat|].
  intros k. destruct (Hg k) as (Ht & Hd & Hv).
  unfold total_of, disagreements_of, vote_of in Ht, Hd, Hv.
  rewrite !lookup_empty in Ht, Hd, Hv. cbn [from_option] in Ht, Hd, Hv.
  fold (total_of s k) (total_of s1 k) (total_of s2 k) in Ht.
  fold (disagreements_of s k) (disagreements_of s1 k)
       (disagreements_of s2 k) in Hd.
  split; [lia|]. split; [lia|]. intros label. specialize (Hv label).
  unfold vote_of. lia.
Qed.

Lemma aggregate_merge_witness :
  exists s1 s2,
    aggregate nova_batch1 0 ∅ = (s1, Ok tt) /\
    aggregate nova_batch2 0 ∅ = (s2, Ok tt) /\
    forall k,
      total_of (fst (aggregate (nova_batch1 ++ nova_batch2) 0 ∅)) k
        = total_of s1 k + total_of s2 k /\
      disagreements_of (fst (aggregate (nova_batch1 ++ nova_batch2) 0 ∅)) k
        = disagreements_of s1 k + disagreements_of s2 k /\
      (forall label,
         vote_of (fst (aggregate (nova_batch1 ++ nova_batch2) 0 ∅)) k label
           = vote_of s1 k label + vote_of s2 k label).
Proof.
  apply (aggregate_merge nova_batch1 nova_batch2 0
           (fst (aggregate (nova_batch1 ++ nova_batch2) 0 ∅))).
  vm_compute. reflexivity.
Defined.

(** ** [get_projects_info] *)

Lemma load_projects_elem isfile load all_projects files ps p :
  load_projects isfile load all_projects files = Ok ps ->
  p ∈ ps <->
  exists fn, fn ∈ files /\ isfile fn = true /\ load fn = Ok p /\
             all_projects && default false (unofficial p) = false.
Proof.
  revert ps. induction files as [|fn files IH]; intros ps H; simpl in H.
  - inversion H; subst ps. split.
    + intros Hin. by apply elem_of_nil in Hin.
    + intros (fn & Hin & _). by apply elem_of_nil in Hin.
  - destruct (isfile fn) eqn:Hf.
    + destruct (load fn) as [p0|e] eqn:Hl; simpl in H; [|discriminate].
      destruct (load_projects isfile load all_projects files) as [rest|e];
        simpl in H; [|discriminate].
      specialize (IH rest eq_refl). inversion H; subst ps. clear H.
      destruct (all_projects && default false (unofficial p0)) eqn:Hu;
        cbn [negb].
      * rewrite IH. split.
        -- intros (fn' & Hin & Hrest). exists fn'. split; [by constructor|auto].
        -- intros (fn' & Hin & Hf' & Hl' & Hu').
           apply elem_of_cons in Hin as [->|Hin]; [|eauto].
           rewrite Hl in Hl'. inversion Hl'; subst p0. congruence.
      * rewrite elem_of_cons, IH. split.
        -- intros [->|(fn' & Hin & Hrest)].
           ++ exists fn. split; [constructor|auto].
           ++ exists fn'. split; [by constructor|auto].
        -- intros (fn' & Hin & Hf' & Hl' & Hu').
           apply elem_of_cons in Hin as [->|Hin]; [|right; eauto].
           left. rewrite Hl in Hl'. by inversion Hl'.
    + rewrite (IH ps H). split.
      * intros (fn' & Hin & Hrest). exists fn'. split; [by constructor|auto].
      * intros (fn' & Hin & Hf' & Hl' & Hu').
        apply elem_of_cons in Hin as [->|Hin]; [congruence|eauto].
Qed.

Lemma load_projects_raises isfile load all_projects files e :
  load_projects isfile load all_projects files = Raise e ->
  exists fn, fn ∈ files /\ isfile fn = true /\ load fn = Raise e.
Proof.
  induction files as [|fn files IH]; simpl; [discriminate|].
  destruct (isfile fn) eqn:Hf.
  - destruct (load fn) as [p0|e0] eqn:Hl; simpl.
    + destruct (load_projects isfile load all_projects files) as [rest|e1];
        simpl; [discriminate|].
      intros H. inversion H; subst e1. destruct (IH eq_refl) as (fn' & Hin & Hr).
      exists fn'. split; [by constructor|assumption].
    + intros H. inversion H; subst e0. exists fn. split; [constructor|auto].
  - intros H. destruct (IH H) as (fn' & Hin & Hr).
    exists fn'. split; [by constructor|assumption].
Qed.

(** X21. With [all_projects], [get_projects_info] returns the projects
    of the existing ['.json'] files that are not marked unofficial, and
    only those; the [project] argument plays no part; an exception is
    that of the loading of one of the existing files. Without
    [all_projects] it reads the one file named by [project] and nothing
    else: no project when that is not a file, the project alone when it
    loads, marked unofficial or not. *)
Theorem get_projects_info_modes isfile load json_files project :
  (forall ps, get_projects_info isfile load json_files project true = Ok ps ->
     forall p, p ∈ ps <->
       exists fn, fn ∈ json_files /\ isfile fn = true /\ load fn = Ok p /\
                  default false (unofficial p) = false) /\
  (forall project',
     get_projects_info isfile load json_files project' true =
     get_projects_info isfile load json_files project true) /\
  (forall e, get_projects_info isfile load json_files project true = Raise e ->
     exists fn, fn ∈ json_files /\ isfile fn = true /\ load fn = Raise e) /\
  get_projects_info isfile load json_files project false =
    (if isfile project
     then match load project with
          | Ok p => Ok [p]
          | Raise e => Raise e
          end
     else Ok []).
Proof.
  unfold get_projects_info. split; [|split; [|split]].
  - intros ps H p. exact (load_projects_elem _ _ true _ _ p H).
  - reflexivity.
  - intros e. apply load_projects_raises.
  - cbn [load_projects]. destruct (isfile project); [|reflexivity].
    destruct (load project); reflexivity.
Qed.

(** ** [projects_q] *)

Lemma append_assoc (a b c : string) :
  String.append (String.append a b) c = String.append a (String.append b c).
Proof.
  induction a as [|x a IH]; [reflexivity|].
  change (String x (String.append (String.append a b) c)
          = String x (String.append a (String.append b c))).
  by f_equal.
Qed.

Lemma append_nil_r (a : string) : String.append a "" = a.
Proof.
  induction a as [|x a IH]; [reflexivity|].
  change (String x (String.append a "") = String x a). by f_equal.
Qed.

Lemma join_cons_cons sep (x y : string) l :
  join sep (x :: y :: l) = String.append x (String.append sep (join sep (y :: l))).
Proof. reflexivity. Qed.

Lemma join_terms (a : string) (l : list string) :
  join " OR " (String.append "project:" <$> (a :: l))
  = String.append "project:" (String.append a (or_terms l)).
Proof.
  revert a. induction l as [|b l IH]; intros a.
  - cbn [fmap list_fmap join or_terms foldr]. by rewrite append_nil_r.
  - rewrite fmap_cons, fmap_cons, join_cons_cons, <- fmap_cons, IH.
    rewrite append_assoc. reflexivity.
Qed.

(** X22. The query of a project names each subproject once, with
    [" OR "] between two names and none at either end, inside one pair
    of parentheses; without subprojects it is ["()"]. *)
Theorem projects_q_shape d u (a : string) (l : list string) :
  projects_q (ProjectFile d (a :: l) u)
    = String.append "(project:" (String.append a (String.append (or_terms l) ")")) /\
  projects_q (ProjectFile d [] u) = "()".
Proof.
  split; [|reflexivity]. unfold projects_q. cbn [subprojects].
  change (fun s : string => String.append "project:" s)
    with (String.append "project:").
  rewrite join_terms, !append_assoc. reflexivity.
Qed.

Example get_projects_info_sample :
  get_projects_info sample_isfile sample_load sample_files "projects/lab.json" true
    = Ok [ProjectFile (Project "glance" ["carol"]) ["openstack/glance"] (Some false);
          ProjectFile nova ["openstack/nova"; "openstack/python-novaclient"] None] /\
  get_projects_info sample_isfile sample_load sample_files "projects/lab.json" false
    = Ok [ProjectFile (Project "lab" []) ["stackforge/lab"] (Some true)] /\
  get_projects_info sample_isfile sample_load sample_files "projects/none.json" false
    = Ok [] /\
  projects_q (ProjectFile nova ["openstack/nova"; "openstack/python-novaclient"] None)
    = "(project:openstack/nova OR project:openstack/python-novaclient)".
Proof. repeat split; reflexivity. Qed.

(** ** What [main] counts *)

Lemma count_of_app f l1 l2 :
  count_of f (l1 ++ l2) = count_of f l1 + count_of f l2.
Proof.
  unfold count_of. rewrite List.filter_app, length_app. lia.
Qed.

Lemma calls_counts ts (calls : list (project * patchset)) s s' k :
  for_each (fun pp => process_patchset (fst pp) (snd pp) ts) calls s
    = (s', Ok tt) ->
  total_of s' k =
    total_of s k
    + count_of (by_reviewer ts k)
        (concat ((fun pp => approvals_of (snd pp)) <$> calls)) /\
  (forall label,
     vote_of s' k label =
       vote_of s k label
       + count_of (fun r => by_reviewer ts k r && bool_decide (value r = label))
           (concat ((fun pp => approvals_of (snd pp)) <$> calls))).
Proof.
  revert s. induction calls as [|[proj ps] calls IH]; intros s Hrun;
    simpl in Hrun.
  - inversion Hrun; subst s'. unfold count_of. simpl.
    split; [lia|intros; lia].
  - unfold bind in Hrun.
    destruct (process_patchset proj ps ts s) as [s1 [[]|e]] eqn:Hstep;
      [|discriminate].
    apply process_patchset_ok_inv in Hstep as [_ Hstep].
    destruct (tally_counts _ _ _ _ _ _ k Hstep) as (Ht & _ & Hv & _).
    destruct (IH s1 Hrun) as (Ht' & Hv').
    rewrite fmap_cons. cbn [concat snd]. rewrite !count_of_app.
    split; [lia|]. intros label. rewrite count_of_app, Hv', Hv. lia.
Qed.

(** X23. When the loops of [main] return, a reviewer's total is the
    number of code reviews by that reviewer, at or after the cutoff, in
    all the patchsets of all the changes of all the projects, and each
    vote count is the number of those with that value. *)
Theorem aggregate_counts work ts s k :
  aggregate work ts ∅ = (s, Ok tt) ->
  total_of s k = count_of (by_reviewer ts k) (work_approvals work) /\
  (forall label,
     vote_of s k label =
       count_of (fun r => by_reviewer ts k r && bool_decide (value r = label))
         (work_approvals work)).
Proof.
  intros Hrun. rewrite aggregate_flat in Hrun.
  destruct (calls_counts _ _ _ _ k Hrun) as (Ht & Hv).
  unfold work_approvals. split.
  - rewrite Ht. unfold total_of. rewrite lookup_empty. reflexivity.
  - intros label. rewrite Hv. unfold vote_of. rewrite lookup_empty. reflexivity.
Qed.

Lemma aggregate_counts_witness :
  total_of (fst (aggregate nova_work 0 ∅)) "bob"
    = count_of (by_reviewer 0 "bob") (work_approvals nova_work) /\
  (forall label,
     vote_of (fst (aggregate nova_work 0 ∅)) "bob" label =
       count_of (fun r => by_reviewer 0 "bob" r && bool_decide (value r = label))
         (work_approvals nova_work)).
Proof.
  apply (aggregate_counts nova_work 0 (fst (aggregate nova_work 0 ∅)) "bob").
  vm_compute. reflexivity.
Defined.

(** ** The +/- ratio in [main] *)





(** The reviewer of that work has no positive vote and three negative
    ones; the row is computed, with the ratio 0. *)
Example minus_only_row :
  exists st r,
    fst (aggregate minus_only_work 0 ∅) !! "bob" = Some st /\
    make_row (fst <$> minus_only_work) st "bob" = Ok r /\
    row_plus2 r + row_plus1 r = 0 /\
    row_minus2 r + row_minus1 r = 3 /\
    (row_ratio r == 0)%Q.
Proof.
  eexists. eexists. split; [vm_compute; reflexivity|].
  split; [vm_compute; reflexivity|]. repeat split.
Qed.
